(** * Log parsing and aggregation pipeline of the portal access dashboard

    A shallow embedding of the pure part of the dashboard script:
    [parse_log_entry], [process_logs], [get_departments],
    [assign_departments_to_logs], [get_month_range], [prepare_chart_data],
    [prepare_employee_data] and, of [main], the default window, the date
    filter, the two matrix loops and the month cells of the tables.

    Python values are modelled as follows.
    - A [str] is the list of its Unicode code points.
    - A [dict] is an insertion-ordered association list (module [Dict]):
      [items()] enumerates it in insertion order, as Python does.
    - [datetime.date] and [datetime.datetime] are records of integers.
    - A raised exception is [None] (or [Raise] for the loops, which run
      on fuel and can also end in [Timeout]).
    - What the script takes from the interpreter, the Unicode database
      and the limit on integer strings, is the class [Interpreter]. *)

From Stdlib Require Import String Ascii DecimalString.
From Stdlib Require Import ZArith NArith Bool Lia PeanoNat List Sorted.
Import ListNotations.

Set Implicit Arguments.

(* ================================================================== *)
(** * Python strings                                                    *)
(* ================================================================== *)

Definition codepoint := N.
Definition str := list codepoint.

(** Literals are written as Rocq strings, whose bytes are the UTF-8
    encoding of the text; [utf8] decodes the one- and two-byte sequences,
    which cover the Latin and Cyrillic letters the script uses. *)
Fixpoint utf8 (bytes : list N) : str :=
  match bytes with
  | [] => []
  | b :: rest =>
      if (b <? 128)%N then b :: utf8 rest
      else match rest with
           | b2 :: rest' => ((b - 192) * 64 + (b2 - 128))%N :: utf8 rest'
           | [] => [b]
           end
  end.

Definition lit (s : string) : str :=
  utf8 (map N_of_ascii (list_ascii_of_string s)).

(** Character classes. Below 128 they are the fixed ASCII ones; above,
    they come from the interpreter's Unicode database, which is a
    parameter of the development, as is the interpreter's limit on the
    length of a string that [int] converts
    ([sys.get_int_max_str_digits()]: 4300 by default since Python 3.11,
    0 when there is no limit). *)
Inductive uclass :=
| UOther
| USpace                (* str.isspace *)
| UDigit                (* str.isdigit but not a decimal digit, like U+00B2 *)
| UDecimal (v : Z).     (* decimal digit of value v: accepted by int() and \d *)

Class Interpreter := { classify : codepoint -> uclass; int_max_str_digits : nat }.

Definition ascii_class (c : codepoint) : uclass :=
  if ((9 <=? c) && (c <=? 13))%N then USpace
  else if ((28 <=? c) && (c <=? 32))%N then USpace
  else if ((48 <=? c) && (c <=? 57))%N then UDecimal (Z.of_N c - 48)
  else UOther.

Section Strings.
Context {U : Interpreter}.

Definition class_of (c : codepoint) : uclass :=
  if (c <? 128)%N then ascii_class c else classify c.

Definition isspace (c : codepoint) : bool :=
  match class_of c with USpace => true | _ => false end.

Definition isdigit_cp (c : codepoint) : bool :=
  match class_of c with UDigit | UDecimal _ => true | _ => false end.

Definition decimal (c : codepoint) : option Z :=
  match class_of c with UDecimal v => Some v | _ => None end.

(** [s.isdigit()]: at least one character and all of them digits. *)
Definition isdigit (s : str) : bool :=
  match s with [] => false | _ => forallb isdigit_cp s end.

(** [s.startswith(p)] *)
Fixpoint startswith (p s : str) : bool :=
  match p, s with
  | [], _ => true
  | _ :: _, [] => false
  | a :: p', b :: s' => (a =? b)%N && startswith p' s'
  end.

(** [sub in s] *)
Fixpoint contains (sub s : str) : bool :=
  startswith sub s || match s with [] => false | _ :: s' => contains sub s' end.

(** [s.split(sep)] for a non-empty [sep]: occurrences are taken left to
    right and do not overlap. [skip] counts the characters of an occurrence
    still to be passed over and [cur] is the piece being collected. *)
Fixpoint split_go (sep : str) (skip : nat) (cur s : str) : list str :=
  match s with
  | [] => [cur]
  | c :: s' =>
      match skip with
      | S k => split_go sep k cur s'
      | O => if startswith sep s
             then cur :: split_go sep (length sep - 1) [] s'
             else split_go sep 0 (cur ++ [c]) s'
      end
  end.

Definition split (sep s : str) : list str := split_go sep 0 [] s.

(** [s.split(sep, 1)]: one piece when [sep] does not occur, else two. *)
Fixpoint split1_go (sep cur s : str) : list str :=
  match s with
  | [] => [cur]
  | c :: s' =>
      if startswith sep s then [cur; skipn (length sep) s]
      else split1_go sep (cur ++ [c]) s'
  end.

Definition split1 (sep s : str) : list str := split1_go sep [] s.

(** [s.replace(old, new)] for a non-empty [old]. *)
Fixpoint replace_go (old new : str) (skip : nat) (s : str) : str :=
  match s with
  | [] => []
  | c :: s' =>
      match skip with
      | S k => replace_go old new k s'
      | O => if startswith old s
             then new ++ replace_go old new (length old - 1) s'
             else c :: replace_go old new 0 s'
      end
  end.

Definition replace (old new s : str) : str := replace_go old new 0 s.

(** [s.count(sub)] for a non-empty [sub]. *)
Fixpoint count_go (sub : str) (skip : nat) (s : str) : Z :=
  match s with
  | [] => 0
  | _ :: s' =>
      match skip with
      | S k => count_go sub k s'
      | O => if startswith sub s
             then 1 + count_go sub (length sub - 1) s'
             else count_go sub 0 s'
      end
  end.

Definition count (sub s : str) : Z := count_go sub 0 s.

(** [sep.join(l)] *)
Fixpoint join (sep : str) (l : list str) : str :=
  match l with
  | [] => []
  | [x] => x
  | x :: rest => x ++ sep ++ join sep rest
  end.

(** [s.strip()] and [s.strip(chars)] remove characters at both ends. *)
Fixpoint lstrip_by (p : codepoint -> bool) (s : str) : str :=
  match s with
  | [] => []
  | c :: s' => if p c then lstrip_by p s' else s
  end.

Definition strip_by (p : codepoint -> bool) (s : str) : str :=
  rev (lstrip_by p (rev (lstrip_by p s))).

Definition strip (s : str) : str := strip_by isspace s.

Definition strip_chars (chars s : str) : str :=
  strip_by (fun c => existsb (N.eqb c) chars) s.

(** [int(s)] for a string whose characters are all digits, the only way
    the script calls it: the value in base ten when every character is a
    decimal digit, [None] (ValueError) otherwise, and also when the
    string has more digits than the interpreter allows (the limit is
    looked at from 640 digits on). *)
Fixpoint int_go (acc : Z) (s : str) : option Z :=
  match s with
  | [] => Some acc
  | c :: s' => match decimal c with
               | Some v => int_go (10 * acc + v) s'
               | None => None
               end
  end.

Definition too_long (s : str) : bool :=
  (640 <? length s)%nat && (0 <? int_max_str_digits)%nat
  && (int_max_str_digits <? length s)%nat.

Definition py_int (s : str) : option Z :=
  match s with
  | [] => None
  | _ => if too_long s then None else int_go 0 s
  end.

End Strings.

(** An interpreter to run the model on concrete lines: an excerpt of the
    Unicode database (the white space above ASCII, the superscript digits
    of Latin-1 and the Arabic-Indic decimal digits) and the default limit
    of 4300 digits. *)
Definition excerpt_class (c : codepoint) : uclass :=
  if existsb (N.eqb c) [133; 160; 5760; 8232; 8233; 8239; 8287; 12288]%N then USpace
  else if ((8192 <=? c) && (c <=? 8202))%N then USpace
  else if existsb (N.eqb c) [178; 179; 185]%N then UDigit
  else if ((1632 <=? c) && (c <=? 1641))%N then UDecimal (Z.of_N c - 1632)
  else UOther.

Definition sample_interpreter : Interpreter :=
  {| classify := excerpt_class; int_max_str_digits := 4300 |}.

(* ================================================================== *)
(** * Calendar: [datetime.date], [datetime.datetime], [relativedelta]    *)
(* ================================================================== *)

Open Scope Z_scope.

Record date := mkdate { year : Z; month : Z; day : Z }.

Record datetime := mkdatetime
  { dt_date : date; hour : Z; minute : Z; second : Z }.

Definition isleap (y : Z) : bool :=
  (y mod 4 =? 0) && (negb (y mod 100 =? 0) || (y mod 400 =? 0)).

(** [calendar.monthrange(y, m)[1]] *)
Definition days_in_month (y m : Z) : Z :=
  if m =? 2 then (if isleap y then 29 else 28)
  else if (m =? 4) || (m =? 6) || (m =? 9) || (m =? 11) then 30
  else 31.

(** The values the [date] constructor accepts (MINYEAR = 1, MAXYEAR = 9999). *)
Definition valid_date (d : date) : bool :=
  (1 <=? year d) && (year d <=? 9999) &&
  (1 <=? month d) && (month d <=? 12) &&
  (1 <=? day d) && (day d <=? days_in_month (year d) (month d)).

Definition valid_datetime (t : datetime) : bool :=
  valid_date (dt_date t) &&
  (0 <=? hour t) && (hour t <=? 23) &&
  (0 <=? minute t) && (minute t <=? 59) &&
  (0 <=? second t) && (second t <=? 59).

(** [datetime.date(y, m, d)]; [None] is ValueError. *)
Definition make_date (y m d : Z) : option date :=
  let r := mkdate y m d in if valid_date r then Some r else None.

Definition make_datetime (y m d H M Sec : Z) : option datetime :=
  let r := mkdatetime (mkdate y m d) H M Sec in
  if valid_datetime r then Some r else None.

(** Comparison of dates is lexicographic on (year, month, day). *)
Definition date_ltb (a b : date) : bool :=
  (year a <? year b) ||
  ((year a =? year b) &&
   ((month a <? month b) || ((month a =? month b) && (day a <? day b)))).

Definition date_leb (a b : date) : bool := negb (date_ltb b a).

(** A loop runs on fuel: it ends with a value, with an exception, or
    with its fuel spent. *)
Inductive outcome (A : Type) : Type :=
| Done (a : A)
| Raise
| Timeout.
Arguments Raise {A}.
Arguments Timeout {A}.

(** ** dateutil's [relativedelta] *)

(** [relativedelta._set_months]: the pair (years, months). *)
Definition set_months (months : Z) : Z * Z :=
  if 11 <? Z.abs months then
    let s := Z.sgn months in
    (((months * s) / 12) * s, ((months * s) mod 12) * s)
  else (0, months).

(** [dt + relativedelta(years=.., months=..)]: the day is cut down to the
    length of the month reached, and [dt.replace] checks the year. *)
Definition rd_add (dt : date) (ym : Z * Z) : option date :=
  let '(years, months) := ym in
  let y0 := year dt + years in
  let m0 := month dt in
  let '(y1, m1) :=
    if months =? 0 then (y0, m0)
    else let m := m0 + months in
         if 12 <? m then (y0 + 1, m - 12)
         else if m <? 1 then (y0 - 1, m + 12)
         else (y0, m) in
  make_date y1 m1 (Z.min (days_in_month y1 m1) (day dt)).

(** The adjustment loop of [relativedelta(dt1, dt2)]: [up] is the branch
    [dt1 < dt2] (compare = gt, increment = 1). *)
Fixpoint rd_while (fuel : nat) (up : bool) (dt1 dt2 : date)
  (months : Z) (dtm : date) : outcome Z :=
  if (if up then date_ltb dtm dt1 else date_ltb dt1 dtm) then
    match fuel with
    | O => Timeout
    | S f =>
        let months' := months + (if up then 1 else -1) in
        match rd_add dt2 (set_months months') with
        | Some dtm' => rd_while f up dt1 dt2 months' dtm'
        | None => Raise
        end
    end
  else Done months.

(** [relativedelta(dt1, dt2)], reduced to its fields (years, months). *)
Definition relativedelta (fuel : nat) (dt1 dt2 : date) : outcome (Z * Z) :=
  let up := date_ltb dt1 dt2 in
  let months := (year dt1 - year dt2) * 12 + (month dt1 - month dt2) in
  match rd_add dt2 (set_months months) with
  | None => Raise
  | Some dtm =>
      match rd_while fuel up dt1 dt2 months dtm with
      | Done m => Done (set_months m)
      | Raise => Raise
      | Timeout => Timeout
      end
  end.

(** ** Formatting *)

Definition str_of_Z (z : Z) : str :=
  lit (DecimalString.NilZero.string_of_int (Z.to_int z)).

(** Zero padding on the left up to [width] characters. *)
Definition zfill (width : nat) (s : str) : str :=
  repeat 48%N (width - length s) ++ s.

(** [d.strftime("%Y")]: the year on four digits, as documented. (Older C
    libraries leave years below 1000 unpadded; from 1000 on all agree.) *)
Definition strftime_Y (d : date) : str := zfill 4 (str_of_Z (year d)).

(** [d.strftime("%Y-%m")] *)
Definition strftime_Ym (d : date) : str :=
  strftime_Y d ++ lit "-" ++ zfill 2 (str_of_Z (month d)).

(** [f"{year}-{month:02d}"] *)
Definition fstring_year_month (y m : Z) : str :=
  str_of_Z y ++ lit "-" ++ zfill 2 (str_of_Z m).

(** ** [datetime.strptime(s, "%Y-%m-%d %H:%M:%S")]

    CPython turns the format into the regular expression
    [(\d\d\d\d)-(1[0-2]|0[1-9]|[1-9])-(3[01]|[12]\d|0[1-9]|[1-9]| [1-9])\s+(2[0-3]|[01]\d|\d):([0-5]\d|\d):(6[01]|[0-5]\d|\d)],
    matches it at the start of [s], rejects a match that leaves text
    over, converts the groups with [int] and builds the [datetime].
    A matcher returns its matches in the order in which a backtracking
    engine tries them: the value read and the text left. *)

Section Strptime.
Context {U : Interpreter}.

Definition matcher := str -> list (Z * str).

(** An ASCII digit between [lo] and [hi], as in [[0-5]]. *)
Definition ascii_digit (lo hi : Z) : matcher := fun s =>
  match s with
  | c :: r => let v := Z.of_N c - 48 in
              if (lo <=? v) && (v <=? hi) then [(v, r)] else []
  | [] => []
  end.

(** [\d]: a decimal digit of any script. *)
Definition any_digit : matcher := fun s =>
  match s with
  | c :: r => match decimal c with Some v => [(v, r)] | None => [] end
  | [] => []
  end.

(** A literal character of the pattern. *)
Definition char (c : codepoint) : matcher := fun s =>
  match s with
  | c' :: r => if (c =? c')%N then [(0, r)] else []
  | [] => []
  end.

(** Two matchers in a row, read as a two-digit number. *)
Definition two (p q : matcher) : matcher := fun s =>
  flat_map (fun '(a, r) => map (fun '(b, r') => (10 * a + b, r')) (q r)) (p s).

(** Alternation [p|q]: the matches of [p] come first. *)
Definition alt (p q : matcher) : matcher := fun s => p s ++ q s.

(** [\s+] is greedy: the longest run first, then shorter ones. *)
Fixpoint spaces (s : str) : list (Z * str) :=
  match s with
  | c :: r => if isspace c then spaces r ++ [(0, r)] else []
  | [] => []
  end.

Definition re_Y : matcher := two (two (two any_digit any_digit) any_digit) any_digit.
Definition re_m : matcher :=
  alt (two (ascii_digit 1 1) (ascii_digit 0 2))
      (alt (two (ascii_digit 0 0) (ascii_digit 1 9)) (ascii_digit 1 9)).
Definition re_d : matcher :=
  alt (two (ascii_digit 3 3) (ascii_digit 0 1))
      (alt (two (ascii_digit 1 2) any_digit)
           (alt (two (ascii_digit 0 0) (ascii_digit 1 9))
                (alt (ascii_digit 1 9) (two (char 32%N) (ascii_digit 1 9))))).
Definition re_H : matcher :=
  alt (two (ascii_digit 2 2) (ascii_digit 0 3))
      (alt (two (ascii_digit 0 1) any_digit) any_digit).
Definition re_M : matcher := alt (two (ascii_digit 0 5) any_digit) any_digit.
Definition re_S : matcher :=
  alt (two (ascii_digit 6 6) (ascii_digit 0 1))
      (alt (two (ascii_digit 0 5) any_digit) any_digit).

(** Sequencing that keeps the values read so far. *)
Definition andthen {A B} (l : list (A * str)) (p : str -> list (B * str))
  : list ((A * B) * str) :=
  flat_map (fun '(a, r) => map (fun '(b, r') => ((a, b), r')) (p r)) l.

Definition re_timestamp (s : str) :=
  andthen (andthen (andthen (andthen (andthen (andthen (andthen (andthen
    (andthen (andthen (re_Y s) (char 45%N)) re_m) (char 45%N)) re_d) spaces)
    re_H) (char 58%N)) re_M) (char 58%N)) re_S.

Definition strptime (s : str) : option datetime :=
  match re_timestamp s with
  | [] => None                         (* does not match the format *)
  | (((((((((((Y, _), m), _), d), _), H), _), M), _), Sec), rest) :: _ =>
      match rest with
      | [] => make_datetime Y m d H M Sec
      | _ :: _ => None                 (* unconverted data remains *)
      end
  end.

End Strptime.

(* ================================================================== *)
(** * Python dictionaries                                               *)
(* ================================================================== *)

(** A [dict] keeps its keys in insertion order; assigning to a key that
    is present keeps its place. [incr] is [d[k] += 1] on a
    [defaultdict(int)]. *)
Module Dict.
Section Dict.
Variables (K V : Type) (eqb : K -> K -> bool).

Definition t := list (K * V).

Fixpoint get (k : K) (d : t) : option V :=
  match d with
  | [] => None
  | (k', v) :: r => if eqb k k' then Some v else get k r
  end.

Fixpoint set (k : K) (v : V) (d : t) : t :=
  match d with
  | [] => [(k, v)]
  | (k', v') :: r => if eqb k k' then (k', v) :: r else (k', v') :: set k v r
  end.

Definition get_default (k : K) (dflt : V) (d : t) : V :=
  match get k d with Some v => v | None => dflt end.

Definition keys (d : t) : list K := map fst d.
Definition values (d : t) : list V := map snd d.

End Dict.

Definition incr {K} (eqb : K -> K -> bool) (k : K) (d : t K Z) : t K Z :=
  set eqb k (get_default eqb k 0 d + 1) d.

End Dict.

Fixpoint str_eqb (a b : str) : bool :=
  match a, b with
  | [], [] => true
  | x :: a', y :: b' => (x =? y)%N && str_eqb a' b'
  | _, _ => false
  end.

Definition ym_eqb (a b : Z * Z) : bool :=
  (fst a =? fst b) && (snd a =? snd b).

(* ================================================================== *)
(** * Line parser and record normaliser                                 *)
(* ================================================================== *)

(** The dictionary [parse_log_entry] returns. *)
Record entry := mkentry
  { timestamp : datetime;
    client_ip : str;
    client_hostname : str;
    server : str;
    event : str;
    project : str;
    login : str;
    org_unit : str;
    fullname : str }.

(** The same dictionary once [process_logs] has added ['date']. *)
Record log := mklog { log_entry : entry; log_date : date }.

(** ... and once [assign_departments_to_logs] has added ['department']. *)
Record alog := mkalog { alog_log : log; department : str }.

Definition date_of (l : alog) : date := log_date (alog_log l).
Definition fullname_of (l : alog) : str := fullname (log_entry (alog_log l)).

Definition unknown : str := lit "unknown".

Section Parser.
Context {U : Interpreter}.

(** The first two lines of the [try] block: the line as it is split. *)
Definition clean_line (log_line : str) : str :=
  replace (lit "')") [] (replace (lit "('") [] (strip log_line)).

(** One turn of the loop over [data_part.split(", '")]; [None] is the
    ValueError of an unpacking that does not find two parts. *)
Definition add_field (fields : option (Dict.t str str)) (item : str)
  : option (Dict.t str str) :=
  match fields with
  | None => None
  | Some f =>
      if contains (lit ":") item then
        match split1 (lit ":") item with
        | [key; value] =>
            Some (Dict.set str_eqb (strip_chars (lit " '") key)
                                   (strip_chars (lit "'") (strip value)) f)
        | _ => None
        end
      else Some f
  end.

Definition parse_fields (data_part : str) : option (Dict.t str str) :=
  fold_left add_field (split (lit ", '") data_part) (Some []).

Definition field (fields : Dict.t str str) (key : string) : str :=
  Dict.get_default str_eqb (lit key) unknown fields.

(** [parse_log_entry]: [None] is the [except] branch, which reports the
    line and returns None. *)
Definition parse_log_entry (log_line : str) : option entry :=
  let line := clean_line log_line in
  match split1 (lit " - ") line with
  | [time_part; data_part] =>
      match strptime (hd [] (split (lit ",") time_part)) with
      | None => None
      | Some ts =>
          match parse_fields data_part with
          | None => None
          | Some fields =>
              Some {| timestamp := ts;
                      client_ip := field fields "Client_IP";
                      client_hostname := field fields "Client_Hostname";
                      server := field fields "Server";
                      event := field fields "Event";
                      project := field fields "Project";
                      login := field fields "Логин";
                      org_unit := field fields "Орг_уровень_5";
                      fullname := field fields "ФИО" |}
          end
      end
  | _ => None
  end.

(** [process_logs]: the entries that parsed, each with its date, in the
    order of the lines. *)
Definition process_logs (raw_logs : list str) : list log :=
  fold_left
    (fun parsed line =>
       match parse_log_entry line with
       | Some e => parsed ++ [mklog e (dt_date (timestamp e))]
       | None => parsed
       end)
    raw_logs [].

End Parser.

(* ================================================================== *)
(** * Unit attribution                                                  *)
(* ================================================================== *)

Definition get_departments : list str :=
  [ lit "Управление 1"; lit "Управление 2"; lit "Управление 3";
    lit "Управление 4"; lit "Управление 5"; lit "Управление 6" ].

Section Attribution.
Context {U : Interpreter}.

(** The numeric tokens kept by the list comprehension and its slice. *)
Definition octets (ip : str) : list str :=
  firstn 4 (filter isdigit (split (lit ".") ip)).

(** The body of the [try] block for one record; [None] means that an
    exception was raised inside it. *)
Definition try_department (departments : list str) (ip : str) : option str :=
  let clean_ip := join (lit ".") (octets ip) in
  let last_octet :=
    if count (lit ".") clean_ip =? 3
    then py_int (last (split (lit ".") clean_ip) [])
    else Some 0 in
  match last_octet with
  | None => None                                  (* ValueError of int *)
  | Some n =>
      match departments with
      | [] => None                                (* ZeroDivisionError *)
      | _ => nth_error departments (Z.to_nat (n mod Z.of_nat (length departments)))
      end
  end.

(** [try] and [except] together; [None] is the IndexError of
    [departments[0]] on an empty list, which nothing catches. *)
Definition department_for (departments : list str) (ip : str) : option str :=
  match try_department departments ip with
  | Some d => Some d
  | None => nth_error departments 0
  end.

Fixpoint assign_departments_to_logs (logs : list log) (departments : list str)
  : option (list alog) :=
  match logs with
  | [] => Some []
  | l :: rest =>
      match department_for departments (client_ip (log_entry l)) with
      | None => None
      | Some d =>
          match assign_departments_to_logs rest departments with
          | None => None
          | Some rest' => Some (mkalog l d :: rest')
          end
      end
  end.

End Attribution.

(* ================================================================== *)
(** * Period resolver                                                   *)
(* ================================================================== *)

(** [current += relativedelta(months=+1)] *)
Definition next_month (d : date) : option date := rd_add d (0, 1).

(** The [while] loop of [get_month_range]. *)
Fixpoint month_loop (fuel : nat) (current end_date : date)
  (months : list (Z * Z)) : outcome (list (Z * Z)) :=
  if date_leb current end_date then
    match fuel with
    | O => Timeout
    | S f =>
        match next_month current with
        | Some c => month_loop f c end_date (months ++ [(year current, month current)])
        | None => Raise
        end
    end
  else Done months.

(** [list(set(months))] keeps one copy of each pair; [sorted] then orders
    them by (year, month), so the order the set yields does not show. *)
Definition ym_leb (a b : Z * Z) : bool :=
  (fst a <? fst b) || ((fst a =? fst b) && (snd a <=? snd b)).

Fixpoint insert_sorted (x : Z * Z) (l : list (Z * Z)) : list (Z * Z) :=
  match l with
  | [] => [x]
  | y :: r => if ym_leb x y then x :: l else y :: insert_sorted x r
  end.

Fixpoint dedup (l : list (Z * Z)) : list (Z * Z) :=
  match l with
  | [] => []
  | x :: r => if existsb (ym_eqb x) r then dedup r else x :: dedup r
  end.

Definition sorted_set (l : list (Z * Z)) : list (Z * Z) :=
  fold_right insert_sorted [] (dedup l).

Definition get_month_range (fuel : nat) (start end_ : date)
  : outcome (list (Z * Z)) :=
  match make_date (year start) (month start) 1,
        make_date (year end_) (month end_) 1 with
  | Some current, Some end_date =>
      match month_loop fuel current end_date [] with
      | Done months => Done (sorted_set months)
      | Raise => Raise
      | Timeout => Timeout
      end
  | _, _ => Raise
  end.

Inductive freq := Month | Year.

(** The first lines of both chart functions: the span in whole months
    and the grouping it selects. *)
Definition total_months (fuel : nat) (start_date end_date : date) : outcome Z :=
  match relativedelta fuel end_date start_date with
  | Done (years, months) => Done (years * 12 + months)
  | Raise => Raise
  | Timeout => Timeout
  end.

Definition freq_of (total : Z) : freq := if total <=? 12 then Month else Year.

(** The label [prepare_chart_data] gives to a record's date. *)
Definition period_of (f : freq) (end_date d : date) : str :=
  match f with
  | Year =>
      if (year d =? year end_date) && (month d <=? month end_date)
      then fstring_year_month (year d) (month d)
      else strftime_Y d
  | Month => strftime_Ym d
  end.

(* ================================================================== *)
(** * Aggregator                                                        *)
(* ================================================================== *)

(** [filtered_logs] of [main]: both bounds are inclusive. *)
Definition filtered_logs (parsed_logs : list alog) (start_date end_date : date)
  : list alog :=
  filter (fun l => date_leb start_date (date_of l) && date_leb (date_of l) end_date)
         parsed_logs.

(** A row of a matrix: [{'total': .., 'months': defaultdict(int)}]. *)
Record stats := mkstats { total : Z; months : Dict.t (Z * Z) Z }.

Definition matrix := Dict.t str stats.

Definition year_month (l : alog) : Z * Z := (year (date_of l), month (date_of l)).

Definition bump (ym : Z * Z) (s : stats) : stats :=
  {| total := total s + 1; months := Dict.incr ym_eqb ym (months s) |}.

(** [{dept: {'total': 0, 'months': defaultdict(int)} for dept in departments}] *)
Definition empty_matrix (departments : list str) : matrix :=
  fold_left (fun m dept => Dict.set str_eqb dept (mkstats 0 []) m) departments [].

(** One turn of the loop that fills [dept_matrix]; a department that is
    not a key raises KeyError, which the loop swallows. *)
Definition count_log (m : matrix) (l : alog) : matrix :=
  match Dict.get str_eqb (department l) m with
  | Some s => Dict.set str_eqb (department l) (bump (year_month l) s) m
  | None => m
  end.

Definition dept_matrix (departments : list str) (filtered : list alog) : matrix :=
  fold_left count_log filtered (empty_matrix departments).

(** [dept_logs] and the loop that fills [employee_matrix], a
    [defaultdict] whose rows appear on first use. *)
Definition dept_logs (filtered : list alog) (selected_dept : str) : list alog :=
  filter (fun l => str_eqb (department l) selected_dept) filtered.

Definition count_employee (m : matrix) (l : alog) : matrix :=
  let name := fullname_of l in
  if str_eqb name unknown then m
  else Dict.set str_eqb name
         (bump (year_month l) (Dict.get_default str_eqb name (mkstats 0 []) m)) m.

Definition employee_matrix (dept_logs : list alog) : matrix :=
  fold_left count_employee dept_logs [].

(** ** Chart data *)

(** A row of the data frame: row key, period label, visits. *)
Record chart_row := mkrow { row_key : str; row_period : str; row_count : Z }.

(** The counting loop of [prepare_chart_data] on
    [defaultdict(lambda: defaultdict(int))]. *)
Definition chart_count (f : freq) (end_date : date)
  (data : Dict.t str (Dict.t str Z)) (l : alog) : Dict.t str (Dict.t str Z) :=
  let dept := department l in
  let period := period_of f end_date (date_of l) in
  Dict.set str_eqb dept
    (Dict.incr str_eqb period (Dict.get_default str_eqb dept [] data)) data.

Definition chart_rows (departments : list str) (data : Dict.t str (Dict.t str Z))
  : list chart_row :=
  flat_map (fun dept =>
              map (fun '(period, n) => mkrow dept period n)
                  (Dict.get_default str_eqb dept [] data))
           departments.

Definition prepare_chart_data (fuel : nat) (filtered : list alog)
  (start_date end_date : date) : outcome (list chart_row * freq) :=
  match total_months fuel start_date end_date with
  | Done tm =>
      let f := freq_of tm in
      let data := fold_left (chart_count f end_date) filtered [] in
      Done (chart_rows get_departments data, f)
  | Raise => Raise
  | Timeout => Timeout
  end.

(** The rows [prepare_employee_data] appends for one employee: one per
    (year, month) key, with the label of that month. [None] is the
    ValueError of [datetime.date(year, month, 1)]. *)
Fixpoint employee_rows (f : freq) (end_date : date) (employee : str)
  (items : list ((Z * Z) * Z)) : option (list chart_row) :=
  match items with
  | [] => Some []
  | ((y, m), n) :: rest =>
      match make_date y m 1 with
      | None => None
      | Some d =>
          let period :=
            match f with
            | Year => if (year d =? year end_date) && (month d <=? month end_date)
                      then fstring_year_month y m
                      else strftime_Y d
            | Month => strftime_Ym d
            end in
          option_map (cons (mkrow employee period n))
                     (employee_rows f end_date employee rest)
      end
  end.

Fixpoint all_employee_rows (f : freq) (end_date : date) (employee_logs : matrix)
  : option (list chart_row) :=
  match employee_logs with
  | [] => Some []
  | (employee, s) :: rest =>
      match employee_rows f end_date employee (months s),
            all_employee_rows f end_date rest with
      | Some a, Some b => Some (a ++ b)
      | _, _ => None
      end
  end.

Definition prepare_employee_data (fuel : nat) (employee_logs : matrix)
  (start_date end_date : date) : outcome (list chart_row * freq) :=
  match total_months fuel start_date end_date with
  | Done tm =>
      let f := freq_of tm in
      match all_employee_rows f end_date employee_logs with
      | Some rows => Done (rows, f)
      | None => Raise
      end
  | Raise => Raise
  | Timeout => Timeout
  end.

(* ================================================================== *)
(** * Notions used to state the properties                              *)
(* ================================================================== *)

Unset Implicit Arguments.

(** The example line of the specification. *)
Definition example_line : str :=
  lit "2024-01-15 09:00:00,123 - ('Client_IP:'10.0.0.7', 'ФИО:'Ivanov I.I.'')".

(** Sum of a list of counts. *)
Definition sumZ (l : list Z) : Z := fold_right Z.add 0 l.

(** Number of records of a list that satisfy a test. *)
Definition count_if {A} (p : A -> bool) (l : list A) : Z :=
  Z.of_nat (length (filter p l)).

(** A row is consistent when its monthly counts add up to its total. *)
Definition row_ok (s : stats) : Prop := sumZ (Dict.values (months s)) = total s.

Definition sum_totals (m : matrix) : Z := sumZ (map total (Dict.values m)).

Definition in_dept (dept : str) (l : alog) : bool := str_eqb (department l) dept.

(** The last octet in the specification's words: the fourth numeric token
    as an integer when four were found, 0 otherwise; [None] when [int]
    refuses that token. *)
Definition spec_last_octet {U : Interpreter} (ip : str) : option Z :=
  if (length (octets ip) =? 4)%nat then py_int (last (octets ip) []) else Some 0.

(** The span in the specification's words: the number of whole months
    between the two dates, counted from the calendar difference and the
    days of the month. *)
Definition whole_months (start_date end_date : date) : Z :=
  let m0 := (year end_date - year start_date) * 12
            + (month end_date - month start_date) in
  let d0 := Z.min (days_in_month (year end_date) (month end_date)) (day start_date) in
  if date_ltb end_date start_date
  then (if d0 <? day end_date then m0 + 1 else m0)
  else (if day end_date <? d0 then m0 - 1 else m0).

(** The month that follows or precedes a given one. *)
Definition shift_month (y m k : Z) : Z * Z :=
  ((y * 12 + m - 1 + k) / 12, (y * 12 + m - 1 + k) mod 12 + 1).

Section ChartNotions.
Variables (f : freq) (end_date : date).

(** The label of a record and the test "record of unit [d] with label [p]". *)
Definition label (l : alog) : str := period_of f end_date (date_of l).

Definition in_cell (d p : str) (l : alog) : bool :=
  str_eqb (department l) d && str_eqb (label l) p.

(** Every inner dictionary has distinct labels and positive counts. *)
Definition cells_ok (inner : Dict.t str Z) : Prop :=
  NoDup (Dict.keys inner) /\ Forall (fun n => 1 <= n) (Dict.values inner).

(** A cell of the counting dictionary, 0 when it is absent. *)
Definition cell (data : Dict.t str (Dict.t str Z)) (d p : str) : Z :=
  Dict.get_default str_eqb p 0 (Dict.get_default str_eqb d [] data).

(** The rows of the data frame, read off the counting dictionary. *)
Definition chart_data (filtered : list alog) : list chart_row :=
  chart_rows get_departments (fold_left (chart_count f end_date) filtered []).

End ChartNotions.

(** The text handed to [strptime]. *)
Definition timestamp_text (line : str) : str :=
  hd [] (split (lit ",") (hd [] (split1 (lit " - ") line))).

Section ParserNotions.
Context {U : Interpreter}.

(** Where an entry of the field mapping comes from: a chunk of the data
    part with a colon, cut at the first colon and trimmed. *)
Definition extracted (data_part : str) (kv : str * str) : Prop :=
  exists item key value,
    In item (split (lit ", '") data_part)
    /\ split1 (lit ":") item = [key; value]
    /\ fst kv = strip_chars (lit " '") key
    /\ snd kv = strip_chars (lit "'") (strip value).

(** [process_logs] keeps, in order, the entries of the lines that parse. *)
Definition parsed_line (line : str) : list log :=
  match parse_log_entry line with
  | Some e => [mklog e (dt_date (timestamp e))]
  | None => []
  end.

End ParserNotions.

(** The record the example line of the specification parses to. *)
Definition example_entry : entry :=
  {| timestamp := mkdatetime (mkdate 2024 1 15) 9 0 0;
     client_ip := lit "10.0.0.7";
     client_hostname := unknown; server := unknown; event := unknown;
     project := unknown; login := unknown; org_unit := unknown;
     fullname := lit "Ivanov I.I." |}.

(** A record of the second unit, for running the model. *)
Definition sample_log (y m d : Z) (ip name : string) : alog :=
  let e := {| timestamp := mkdatetime (mkdate y m d) 9 0 0;
              client_ip := lit ip;
              client_hostname := unknown; server := unknown; event := unknown;
              project := unknown; login := unknown; org_unit := unknown;
              fullname := lit name |} in
  mkalog (mklog e (mkdate y m d)) (lit "Управление 2").

(** The keys the parser looks up, and the string fields it fills from
    them, in the order of the returned dictionary. *)
Definition recognized_keys : list string :=
  ["Client_IP"; "Client_Hostname"; "Server"; "Event"; "Project";
   "Логин"; "Орг_уровень_5"; "ФИО"]%string.

Definition string_fields (e : entry) : list str :=
  [client_ip e; client_hostname e; server e; event e; project e;
   login e; org_unit e; fullname e].

(** Three visits of one employee, two in March and one in May 2022. *)
Definition three_visits : list str :=
  [ lit "2022-03-01 10:00:00,000 - ('Client_IP:'10.0.0.7', 'ФИО:'Ivanov I.I.'')";
    lit "2022-03-02 11:00:00,000 - ('Client_IP:'10.0.0.7', 'ФИО:'Ivanov I.I.'')";
    lit "2022-05-09 12:00:00,000 - ('Client_IP:'10.0.0.7', 'ФИО:'Ivanov I.I.'')" ].

(* ================================================================== *)
(** * The rest of [main]: default window and table cells                *)
(* ================================================================== *)

(** [default_start = today - relativedelta(months=3)]: subtracting adds
    the negated delta. *)
Definition default_start (today : date) : option date := rd_add today (0, -3).

(** The month cells of one table row:
    [stats["months"].get((year, month), 0) for year, month in display_months].
    The markup around the numbers is left out. *)
Definition table_cells (s : stats) (display_months : list (Z * Z)) : list Z :=
  map (fun ym => Dict.get_default ym_eqb ym 0 (months s)) display_months.

(* ================================================================== *)
(** * Further notions                                                   *)
(* ================================================================== *)

(** The [n] months that start with month [m] of year [y]. *)
Definition months_from (y m : Z) (n : nat) : list (Z * Z) :=
  map (fun k => shift_month y m (Z.of_nat k)) (seq 0 n).

(** The number of the month since year 0, to compare months. *)
Definition month_index (d : date) : Z := year d * 12 + month d.

(** Pairs (year, month) in increasing order. *)
Definition ym_lt (a b : Z * Z) : Prop :=
  fst a < fst b \/ (fst a = fst b /\ snd a < snd b).

(** A record whose name is not the "unknown" default. *)
Definition named (l : alog) : bool := negb (str_eqb (fullname_of l) unknown).

Definition has_name (name : str) (l : alog) : bool := str_eqb (fullname_of l) name.

Definition in_month (ym : Z * Z) (l : alog) : bool := ym_eqb (year_month l) ym.

(** The counts of a row: distinct months, each with at least one visit. *)
Definition months_ok (s : stats) : Prop :=
  NoDup (Dict.keys (months s)) /\ Forall (fun n => 1 <= n) (Dict.values (months s)).

(** The row of an employee, or the row a [defaultdict] would create. *)
Definition zero_stats : stats := mkstats 0 [].

Definition emp_row (m : matrix) (name : str) : stats :=
  Dict.get_default str_eqb name zero_stats m.

(** What every row of the employee matrix satisfies. *)
Definition emp_row_ok (s : stats) : Prop :=
  row_ok s /\ months_ok s /\ 1 <= total s.

(** A (year, month) pair that [datetime.date(year, month, 1)] accepts. *)
Definition valid_ym (ym : Z * Z) : Prop :=
  1 <= fst ym <= 9999 /\ 1 <= snd ym <= 12.

(** The text of the labels, digit by digit, for years 1 to 9999 and
    months 1 to 12: the character of a digit, a year on four digits as
    [%Y] writes a year from 1000 on, a number without padding as an
    f-string writes it, and a month on two digits. *)
Definition digit_char (v : Z) : codepoint := Z.to_N (48 + v).

Definition four_digits (y : Z) : str :=
  [digit_char (y / 1000); digit_char (y / 100 mod 10);
   digit_char (y / 10 mod 10); digit_char (y mod 10)].

Definition two_digits (m : Z) : str := [digit_char (m / 10); digit_char (m mod 10)].

Definition plain_digits (y : Z) : str :=
  if y <? 10 then [digit_char y]
  else if y <? 100 then two_digits y
  else if y <? 1000
       then [digit_char (y / 100); digit_char (y / 10 mod 10); digit_char (y mod 10)]
       else four_digits y.

(** The year-month label and the bare-year label. *)
Definition year_month_text (y m : Z) : str := plain_digits y ++ [45%N] ++ two_digits m.

Definition padded_year_month_text (y m : Z) : str := four_digits y ++ [45%N] ++ two_digits m.

Definition bare_year_text (y : Z) : str := four_digits y.

(** Two records of the second unit, in May 2024 and in March 2023. *)
Definition two_years_of_visits : list alog :=
  [sample_log 2024 5 15 "10.0.0.7" "Ivanov I.I."; sample_log 2023 3 9 "10.0.0.7" "Ivanov I.I."].

Section FieldNotions.
Context {U : Interpreter}.

(** What one chunk of the data part adds to the field mapping. *)
Definition item_kv (item : str) : option (str * str) :=
  if contains (lit ":") item then
    match split1 (lit ":") item with
    | [key; value] =>
        Some (strip_chars (lit " '") key, strip_chars (lit "'") (strip value))
    | _ => None
    end
  else None.

Definition item_key (item : str) : option str := option_map fst (item_kv item).

(** The field mapping after one more chunk. *)
Definition apply_item (fields : Dict.t str str) (item : str) : Dict.t str str :=
  match item_kv item with
  | Some (k, v) => Dict.set str_eqb k v fields
  | None => fields
  end.

End FieldNotions.

(** A string that neither begins nor ends with a character of a class. *)
Definition clean_ends (p : codepoint -> bool) (s : str) : Prop :=
  match s with
  | [] => True
  | c :: _ => p c = false /\ p (last s c) = false
  end.

(* ================================================================== *)
(** * Facts about strings and dictionaries                              *)
(* ================================================================== *)

(** ** The model at work *)

Example lit_cyrillic : lit "ФИО" = [1060; 1048; 1054]%N.
Proof. reflexivity. Qed.

Example split_example :
  split (lit ", '") (lit "a:'1', 'b:'2', 'c") = [lit "a:'1'"; lit "b:'2'"; lit "c"].
Proof. reflexivity. Qed.

Example split_keeps_empty_pieces :
  split (lit ".") (lit "1..2.") = [lit "1"; []; lit "2"; []].
Proof. reflexivity. Qed.

Example split1_example :
  split1 (lit ":") (lit "Event:'a:b'") = [lit "Event"; lit "'a:b'"]
  /\ split1 (lit " - ") (lit "no separator") = [lit "no separator"].
Proof. split; reflexivity. Qed.

Example replace_example :
  replace (lit "('") [] (lit "x ('a') ('b") = lit "x a') b".
Proof. reflexivity. Qed.

Example strip_example :
  strip (U:=sample_interpreter) (lit "  a b ") = lit "a b"
  /\ strip_chars (lit " '") (lit "' k'") = lit "k".
Proof. split; reflexivity. Qed.

Example isdigit_is_wider_than_int :
  isdigit (U:=sample_interpreter) (lit "²") = true
  /\ py_int (U:=sample_interpreter) (lit "²") = None
  /\ py_int (U:=sample_interpreter) (lit "007") = Some 7.
Proof. repeat split; reflexivity. Qed.

Example strptime_examples :
  strptime (U:=sample_interpreter) (lit "2024-01-15 09:00:00")
  = Some (mkdatetime (mkdate 2024 1 15) 9 0 0)
  /\ strptime (U:=sample_interpreter) (lit "2024-1-5   9:0:7")
     = Some (mkdatetime (mkdate 2024 1 5) 9 0 7)
  /\ strptime (U:=sample_interpreter) (lit "2024-02-30 09:00:00") = None
  /\ strptime (U:=sample_interpreter) (lit "2024-01-15 09:00:60") = None
  /\ strptime (U:=sample_interpreter) (lit "2024-01-15 09:00:00 ") = None
  /\ strptime (U:=sample_interpreter) (lit "2024-01-15T09:00:00") = None
  /\ strptime (U:=sample_interpreter) (lit "15.01.2024 09:00:00") = None.
Proof. repeat split; reflexivity. Qed.

Example relativedelta_examples :
  relativedelta 1 (mkdate 2025 2 1) (mkdate 2024 1 31) = Done (1, 0)
  /\ relativedelta 1 (mkdate 2024 1 31) (mkdate 2025 2 1) = Done (-1, 0)
  /\ relativedelta 1 (mkdate 2024 3 30) (mkdate 2024 2 29) = Done (0, 1)
  /\ relativedelta 0 (mkdate 2025 2 1) (mkdate 2024 1 31) = Timeout.
Proof. repeat split; reflexivity. Qed.

Example get_month_range_examples :
  get_month_range 4 (mkdate 2023 11 20) (mkdate 2024 2 10)
  = Done [(2023, 11); (2023, 12); (2024, 1); (2024, 2)]
  /\ get_month_range 1 (mkdate 2024 5 10) (mkdate 2024 5 10) = Done [(2024, 5)]
  /\ get_month_range 2 (mkdate 9999 12 1) (mkdate 9999 12 31) = Raise.
Proof. repeat split; reflexivity. Qed.

Example period_examples :
  let end_date := mkdate 2024 6 30 in
  period_of Year end_date (mkdate 2024 3 9) = lit "2024-03"
  /\ period_of Year end_date (mkdate 2023 3 9) = lit "2023"
  /\ period_of Year end_date (mkdate 2024 7 1) = lit "2024"
  /\ period_of Month end_date (mkdate 2024 3 9) = lit "2024-03".
Proof. repeat split; reflexivity. Qed.

(** ** Equality tests *)

Lemma str_eqb_eq : forall a b, str_eqb a b = true <-> a = b.
Proof.
  induction a as [|x a IH]; destruct b as [|y b]; simpl; split; intro H;
    try reflexivity; try discriminate.
  - apply andb_true_iff in H as [Hx Hr]. apply N.eqb_eq in Hx.
    apply IH in Hr. now subst.
  - injection H as -> ->. rewrite N.eqb_refl. simpl. now apply IH.
Qed.

Lemma str_eqb_refl : forall a, str_eqb a a = true.
Proof. intro a. now apply str_eqb_eq. Qed.

Lemma ym_eqb_eq : forall a b, ym_eqb a b = true <-> a = b.
Proof.
  intros [a1 a2] [b1 b2]. unfold ym_eqb. simpl.
  rewrite andb_true_iff, !Z.eqb_eq. split.
  - now intros [-> ->].
  - intro H. injection H as -> ->. now split.
Qed.

Lemma sumZ_app : forall l1 l2, sumZ (l1 ++ l2) = sumZ l1 + sumZ l2.
Proof. induction l1 as [|x l1 IH]; intro l2; simpl; [reflexivity | rewrite IH; lia]. Qed.

Section DictFacts.
Variables (K V : Type) (eqb : K -> K -> bool).
Hypothesis eqb_eq : forall a b, eqb a b = true <-> a = b.

Lemma key_eqb_refl : forall a, eqb a a = true.
Proof. intro a. now apply eqb_eq. Qed.

Lemma get_set_same : forall k (v : V) d, Dict.get eqb k (Dict.set eqb k v d) = Some v.
Proof.
  intros k v d. induction d as [|[k' v'] d IH]; simpl.
  - now rewrite key_eqb_refl.
  - destruct (eqb k k') eqn:E; simpl; rewrite E; [reflexivity | exact IH].
Qed.

Lemma get_set_other : forall k k' (v : V) d,
  k <> k' -> Dict.get eqb k' (Dict.set eqb k v d) = Dict.get eqb k' d.
Proof.
  intros k k' v d Hne. induction d as [|[k0 v0] d IH]; simpl.
  - destruct (eqb k' k) eqn:E; [|reflexivity].
    apply eqb_eq in E. congruence.
  - destruct (eqb k k0) eqn:E; simpl.
    + apply eqb_eq in E. subst k0.
      destruct (eqb k' k) eqn:E'; [|reflexivity].
      apply eqb_eq in E'. congruence.
    + now rewrite IH.
Qed.

Lemma keys_set_present : forall k (v v0 : V) d,
  Dict.get eqb k d = Some v0 -> Dict.keys (Dict.set eqb k v d) = Dict.keys d.
Proof.
  intros k v v0 d. unfold Dict.keys.
  induction d as [|[k' v'] d IH]; simpl; [discriminate|].
  destruct (eqb k k') eqn:E; simpl; [reflexivity|].
  intro H. now rewrite IH.
Qed.

Lemma keys_set_absent : forall k (v : V) d,
  Dict.get eqb k d = None -> Dict.keys (Dict.set eqb k v d) = Dict.keys d ++ [k].
Proof.
  intros k v d. unfold Dict.keys.
  induction d as [|[k' v'] d IH]; simpl; [reflexivity|].
  destruct (eqb k k') eqn:E; simpl; [discriminate|].
  intro H. now rewrite IH.
Qed.

Lemma get_None_keys : forall k (d : Dict.t K V),
  Dict.get eqb k d = None <-> ~ In k (Dict.keys d).
Proof.
  intros k d. induction d as [|[k' v'] d IH]; simpl.
  - tauto.
  - destruct (eqb k k') eqn:E.
    + apply eqb_eq in E. subst. split; [discriminate | intro H; exfalso; apply H; now left].
    + rewrite IH. split.
      * intros H [H'|H']; [|contradiction]. subst. rewrite key_eqb_refl in E. discriminate.
      * intros H H'. apply H. now right.
Qed.

Lemma NoDup_keys_set : forall k (v : V) d,
  NoDup (Dict.keys d) -> NoDup (Dict.keys (Dict.set eqb k v d)).
Proof.
  intros k v d Hnd. destruct (Dict.get eqb k d) as [v0|] eqn:G.
  - now rewrite (keys_set_present k v v0 d G).
  - rewrite (keys_set_absent k v d G).
    apply NoDup_app; [exact Hnd | repeat constructor; intros [] |].
    intros x Hx [<-|[]]. now apply get_None_keys in G.
Qed.

Lemma In_get : forall k (v : V) d,
  NoDup (Dict.keys d) -> In (k, v) d -> Dict.get eqb k d = Some v.
Proof.
  intros k v d. induction d as [|[k' v'] d IH]; simpl; [tauto|].
  intros Hnd [H|H].
  - injection H as -> ->. now rewrite key_eqb_refl.
  - inversion Hnd as [|? ? Hni Hnd']; subst.
    destruct (eqb k k') eqn:E.
    + apply eqb_eq in E. subst. exfalso. apply Hni.
      change k' with (fst (k', v)). now apply in_map.
    + now apply IH.
Qed.

Lemma get_In : forall k (v : V) d, Dict.get eqb k d = Some v -> In (k, v) d.
Proof.
  intros k v d. induction d as [|[k' v'] d IH]; simpl; [discriminate|].
  destruct (eqb k k') eqn:E.
  - apply eqb_eq in E. subst. intro H. injection H as ->. now left.
  - intro H. right. now apply IH.
Qed.

(** A property of the values survives an assignment of a value that has it. *)
Lemma Forall_values_set : forall (P : V -> Prop) k v d,
  Forall P (Dict.values d) -> P v -> Forall P (Dict.values (Dict.set eqb k v d)).
Proof.
  intros P k v d Hd Hv. induction d as [|[k' v'] d IH]; simpl.
  - now constructor.
  - inversion Hd as [|? ? Hv' Hd']; subst.
    destruct (eqb k k'); simpl; constructor; auto.
Qed.

Lemma get_Forall_values : forall (P : V -> Prop) k v d,
  Forall P (Dict.values d) -> Dict.get eqb k d = Some v -> P v.
Proof.
  intros P k v d Hd. induction d as [|[k' v'] d IH]; simpl; [discriminate|].
  inversion Hd as [|? ? Hv' Hd']; subst.
  destruct (eqb k k'); [intro H; now injection H as <- | now apply IH].
Qed.

End DictFacts.

Section CounterFacts.
Variables (K : Type) (eqb : K -> K -> bool).

(** Assigning [v] to a key changes the sum of the counts by [v] minus
    the count the key had. *)
Lemma sumZ_set : forall k v (d : Dict.t K Z),
  sumZ (Dict.values (Dict.set eqb k v d))
  = sumZ (Dict.values d) - Dict.get_default eqb k 0 d + v.
Proof.
  intros k v d. unfold Dict.get_default.
  induction d as [|[k' v'] d IH]; simpl; [lia|].
  destruct (eqb k k'); simpl; [lia | rewrite IH; lia].
Qed.

Lemma sumZ_incr : forall k (d : Dict.t K Z),
  sumZ (Dict.values (Dict.incr eqb k d)) = sumZ (Dict.values d) + 1.
Proof. intros k d. unfold Dict.incr. rewrite sumZ_set. lia. Qed.

End CounterFacts.

(* ================================================================== *)
(** * Facts about the unit matrix                                       *)
(* ================================================================== *)

Lemma bump_row_ok : forall ym s, row_ok s -> row_ok (bump ym s).
Proof.
  intros ym s H. unfold row_ok, bump in *. simpl.
  rewrite sumZ_incr. lia.
Qed.

Lemma count_log_keys : forall m l, Dict.keys (count_log m l) = Dict.keys m.
Proof.
  intros m l. unfold count_log.
  destruct (Dict.get str_eqb (department l) m) as [s|] eqn:G; [|reflexivity].
  eapply keys_set_present. exact G.
Qed.

Lemma fold_count_log_keys : forall logs m,
  Dict.keys (fold_left count_log logs m) = Dict.keys m.
Proof.
  induction logs as [|l logs IH]; intro m; simpl; [reflexivity|].
  now rewrite IH, count_log_keys.
Qed.

Lemma count_log_row_ok : forall m l,
  Forall row_ok (Dict.values m) -> Forall row_ok (Dict.values (count_log m l)).
Proof.
  intros m l H. unfold count_log.
  destruct (Dict.get str_eqb (department l) m) as [s|] eqn:G; [|exact H].
  apply Forall_values_set; [exact H|].
  apply bump_row_ok. eapply get_Forall_values; [exact H | exact G].
Qed.

Lemma fold_count_log_row_ok : forall logs m,
  Forall row_ok (Dict.values m) ->
  Forall row_ok (Dict.values (fold_left count_log logs m)).
Proof.
  induction logs as [|l logs IH]; intros m H; simpl; [exact H|].
  apply IH. now apply count_log_row_ok.
Qed.

(** The row of a unit counts the records attributed to it. *)
Lemma fold_count_log_get : forall logs m dept s0,
  Dict.get str_eqb dept m = Some s0 ->
  exists s, Dict.get str_eqb dept (fold_left count_log logs m) = Some s
            /\ total s = total s0 + count_if (in_dept dept) logs.
Proof.
  induction logs as [|l logs IH]; intros m dept s0 G; simpl.
  - exists s0. split; [exact G | unfold count_if; simpl; lia].
  - unfold count_if, in_dept. simpl.
    destruct (str_eqb (department l) dept) eqn:E.
    + apply str_eqb_eq in E.
      assert (G' : Dict.get str_eqb dept (count_log m l) = Some (bump (year_month l) s0)).
      { unfold count_log. rewrite E, G. apply get_set_same. exact str_eqb_eq. }
      destruct (IH _ _ _ G') as [s [Hs Ht]]. exists s. split; [exact Hs|].
      rewrite Ht. unfold count_if, in_dept, bump.
      cbn [total length]. lia.
    + assert (G' : Dict.get str_eqb dept (count_log m l) = Some s0).
      { unfold count_log.
        destruct (Dict.get str_eqb (department l) m) as [s1|]; [|exact G].
        rewrite get_set_other; [exact G | exact str_eqb_eq |].
        intro Heq. rewrite Heq, str_eqb_refl in E. discriminate. }
      destruct (IH _ _ _ G') as [s [Hs Ht]]. exists s. split; [exact Hs|].
      rewrite Ht. reflexivity.
Qed.

Lemma sum_totals_bump : forall k ym s (m : matrix),
  Dict.get str_eqb k m = Some s ->
  sum_totals (Dict.set str_eqb k (bump ym s) m) = sum_totals m + 1.
Proof.
  intros k ym s m. unfold sum_totals.
  induction m as [|[k' s'] m IH]; simpl; [discriminate|].
  destruct (str_eqb k k'); simpl.
  - intro H. injection H as ->. lia.
  - intro H. rewrite (IH H). lia.
Qed.

(** Every record whose department is a row adds one to the totals. *)
Lemma fold_count_log_sum : forall logs m,
  Forall (fun l => In (department l) (Dict.keys m)) logs ->
  sum_totals (fold_left count_log logs m) = sum_totals m + Z.of_nat (length logs).
Proof.
  induction logs as [|l logs IH]; intros m H; simpl fold_left.
  - simpl. lia.
  - inversion H as [|? ? Hl Hrest]; subst.
    rewrite IH.
    + unfold count_log.
      destruct (Dict.get str_eqb (department l) m) as [s|] eqn:G.
      * rewrite (sum_totals_bump _ _ _ _ G). simpl length. lia.
      * exfalso. apply get_None_keys in G; [contradiction | exact str_eqb_eq].
    + rewrite count_log_keys. exact Hrest.
Qed.

Lemma empty_matrix_departments :
  empty_matrix get_departments = map (fun dept => (dept, mkstats 0 [])) get_departments.
Proof. reflexivity. Qed.

Lemma NoDup_departments : NoDup get_departments.
Proof.
  repeat constructor; simpl; intro H;
    repeat (destruct H as [H|H]; [discriminate H|]); exact H.
Qed.

Lemma dept_matrix_keys : forall filtered,
  Dict.keys (dept_matrix get_departments filtered) = get_departments.
Proof. intro filtered. unfold dept_matrix. now rewrite fold_count_log_keys. Qed.

Lemma general_sum_law : forall filtered,
  Forall (fun l => In (department l) get_departments) filtered ->
  Forall row_ok (Dict.values (dept_matrix get_departments filtered))
  /\ sum_totals (dept_matrix get_departments filtered) = Z.of_nat (length filtered).
Proof.
  intros filtered H. unfold dept_matrix. split.
  - apply fold_count_log_row_ok. rewrite empty_matrix_departments.
    repeat constructor.
  - rewrite fold_count_log_sum; [reflexivity | exact H].
Qed.

(* ================================================================== *)
(** * Facts about splitting on one character                            *)
(* ================================================================== *)

Section SplitChar.
Variable c : codepoint.

Lemma startswith_char : forall x s, startswith [c] (x :: s) = (c =? x)%N.
Proof. intros x s. simpl. apply andb_true_r. Qed.

(** No piece of a split contains the separator. *)
Lemma split_go_free : forall s cur,
  ~ In c cur -> Forall (fun t => ~ In c t) (split_go [c] 0 cur s).
Proof.
  induction s as [|x s IH]; intros cur Hcur.
  - simpl. now constructor.
  - cbn [split_go]. rewrite startswith_char.
    destruct (c =? x)%N eqn:E.
    + constructor; [exact Hcur|]. simpl. apply IH. intros [].
    + apply IH. intro H. apply in_app_or in H as [H|[H|[]]]; [contradiction|].
      subst x. rewrite N.eqb_refl in E. discriminate.
Qed.

Lemma split_free : forall s, Forall (fun t => ~ In c t) (split [c] s).
Proof. intro s. apply split_go_free. intros []. Qed.

(** A piece without the separator is read through in one go. *)
Lemma split_go_app : forall t cur rest,
  ~ In c t -> split_go [c] 0 cur (t ++ rest) = split_go [c] 0 (cur ++ t) rest.
Proof.
  induction t as [|x t IH]; intros cur rest Ht.
  - now rewrite app_nil_r.
  - rewrite <- app_comm_cons. cbn [split_go]. rewrite startswith_char.
    destruct (c =? x)%N eqn:E.
    + apply N.eqb_eq in E. subst x. exfalso. apply Ht. now left.
    + rewrite IH; [|intro H; apply Ht; now right].
      now rewrite <- app_assoc.
Qed.

Lemma count_go_app : forall t rest,
  ~ In c t -> count_go [c] 0 (t ++ rest) = count_go [c] 0 rest.
Proof.
  induction t as [|x t IH]; intros rest Ht; [reflexivity|].
  rewrite <- app_comm_cons. cbn [count_go]. rewrite startswith_char.
  destruct (c =? x)%N eqn:E.
  - apply N.eqb_eq in E. subst x. exfalso. apply Ht. now left.
  - apply IH. intro H. apply Ht. now right.
Qed.

Lemma count_go_free : forall t, ~ In c t -> count_go [c] 0 t = 0.
Proof.
  intros t Ht. rewrite <- (app_nil_r t). now rewrite count_go_app.
Qed.

(** Splitting undoes joining, for pieces without the separator. *)
Lemma split_join : forall toks,
  toks <> [] -> Forall (fun t => ~ In c t) toks ->
  split [c] (join [c] toks) = toks.
Proof.
  unfold split. induction toks as [|t toks IH]; intros Hne Hfree; [congruence|].
  inversion Hfree as [|? ? Ht Hrest]; subst.
  destruct toks as [|t' toks].
  - simpl join. rewrite <- (app_nil_r t) at 1. rewrite split_go_app by exact Ht.
    reflexivity.
  - change (join [c] (t :: t' :: toks)) with (t ++ c :: join [c] (t' :: toks)).
    rewrite split_go_app by exact Ht. cbn [split_go]. rewrite startswith_char.
    rewrite N.eqb_refl. simpl app. simpl Nat.sub. f_equal.
    apply IH; [discriminate | exact Hrest].
Qed.

Lemma count_join : forall toks,
  Forall (fun t => ~ In c t) toks ->
  count [c] (join [c] toks) = Z.of_nat (length toks - 1).
Proof.
  unfold count. induction toks as [|t toks IH]; intro Hfree; [reflexivity|].
  inversion Hfree as [|? ? Ht Hrest]; subst.
  destruct toks as [|t' toks].
  - simpl join. now rewrite count_go_free.
  - change (join [c] (t :: t' :: toks)) with (t ++ c :: join [c] (t' :: toks)).
    rewrite count_go_app by exact Ht. cbn [count_go]. rewrite startswith_char.
    rewrite N.eqb_refl. simpl Nat.sub at 1. rewrite (IH Hrest).
    simpl length. lia.
Qed.

End SplitChar.

(* ================================================================== *)
(** * Facts about unit attribution                                      *)
(* ================================================================== *)

Lemma In_firstn : forall {A} n (l : list A) x, In x (firstn n l) -> In x l.
Proof.
  intros A n. induction n as [|n IH]; intros [|y l] x; simpl; try tauto.
  intros [H|H]; [now left | right; now apply IH].
Qed.

Section AttributionFacts.
Context {U : Interpreter}.

Lemma octets_free : forall ip, Forall (fun t => ~ In 46%N t) (octets ip).
Proof.
  intro ip. unfold octets. apply Forall_forall. intros t Ht.
  apply In_firstn in Ht. apply filter_In in Ht as [Ht _].
  pose proof (split_free 46%N ip) as H. rewrite Forall_forall in H. now apply H.
Qed.

Lemma octets_length : forall ip, (length (octets ip) <= 4)%nat.
Proof. intro ip. unfold octets. apply firstn_le_length. Qed.

Lemma octets_isdigit : forall ip, Forall (fun t => isdigit t = true) (octets ip).
Proof.
  intro ip. unfold octets. apply Forall_forall. intros t Ht.
  apply In_firstn in Ht. now apply filter_In in Ht as [_ Ht].
Qed.

(** The string detour of the source (join, count the dots, split again)
    reads off the number of tokens and the last of them. *)
Lemma last_octet_tokens : forall ip,
  (if count (lit ".") (join (lit ".") (octets ip)) =? 3
   then py_int (last (split (lit ".") (join (lit ".") (octets ip))) [])
   else Some 0)
  = spec_last_octet ip.
Proof.
  intro ip. unfold spec_last_octet. change (lit ".") with [46%N].
  rewrite count_join by apply octets_free.
  pose proof (octets_length ip) as Hlen.
  destruct (octets ip) as [|t toks] eqn:E.
  - reflexivity.
  - rewrite split_join; [| discriminate | rewrite <- E; apply octets_free].
    match goal with |- context [?a =? 3] => destruct (a =? 3) eqn:E3 end.
    + apply Z.eqb_eq in E3.
      replace (length (t :: toks) =? 4)%nat with true; [reflexivity|].
      symmetry. apply Nat.eqb_eq. simpl length in *. unfold str in *. lia.
    + apply Z.eqb_neq in E3.
      replace (length (t :: toks) =? 4)%nat with false; [reflexivity|].
      symmetry. apply Nat.eqb_neq. simpl length in *. unfold str in *. lia.
Qed.

Lemma try_department_spec : forall ip,
  try_department get_departments ip
  = match spec_last_octet ip with
    | Some n => Some (nth (Z.to_nat (n mod 6)) get_departments [])
    | None => None
    end.
Proof.
  intro ip. unfold try_department. rewrite last_octet_tokens.
  destruct (spec_last_octet ip) as [n|]; [|reflexivity].
  change (Z.of_nat (length get_departments)) with 6.
  assert (H : (Z.to_nat (n mod 6) < length get_departments)%nat).
  { change (length get_departments) with 6%nat.
    pose proof (Z.mod_pos_bound n 6). lia. }
  cbv beta iota. change (nth_error get_departments (Z.to_nat (n mod 6))
    = Some (nth (Z.to_nat (n mod 6)) get_departments [])).
  now apply nth_error_nth'.
Qed.

Lemma department_for_spec : forall ip,
  department_for get_departments ip
  = Some (match spec_last_octet ip with
          | Some n => nth (Z.to_nat (n mod 6)) get_departments []
          | None => hd [] get_departments
          end).
Proof.
  intro ip. unfold department_for. rewrite try_department_spec.
  now destruct (spec_last_octet ip).
Qed.

Lemma department_for_in : forall ip d,
  department_for get_departments ip = Some d -> In d get_departments.
Proof.
  intros ip d. rewrite department_for_spec.
  match goal with |- Some ?r = _ -> _ => remember r as r' eqn:Er end.
  intro H. injection H as <-. rewrite Er.
  destruct (spec_last_octet ip) as [n|].
  - apply nth_In. change (length get_departments) with 6%nat.
    pose proof (Z.mod_pos_bound n 6). lia.
  - now left.
Qed.

(** [int] refuses a token exactly when it is empty or holds a character
    that is not a decimal digit. *)
Lemma int_go_None : forall s acc,
  int_go acc s = None <-> exists c, In c s /\ decimal c = None.
Proof.
  induction s as [|x s IH]; intro acc; simpl.
  - split; [discriminate | intros [c [[] _]]].
  - destruct (decimal x) as [v|] eqn:E.
    + rewrite IH. split.
      * intros [c [Hc Hd]]. exists c. split; [now right | exact Hd].
      * intros [c [[->|Hc] Hd]]; [congruence | exists c; now split].
    + split; [|reflexivity]. intros _. exists x. split; [now left | exact E].
Qed.

Lemma py_int_None : forall s,
  s <> [] ->
  (py_int s = None <-> too_long s = true \/ exists c, In c s /\ decimal c = None).
Proof.
  intros [|x s] Hne; [congruence|]. unfold py_int.
  destruct (too_long (x :: s)).
  - split; [now left | reflexivity].
  - rewrite int_go_None. split; [now right | intros [H|H]; [discriminate | exact H]].
Qed.

(** Attribution of a whole batch with the fixed units never fails. *)
Lemma assign_total : forall logs,
  exists alogs, assign_departments_to_logs logs get_departments = Some alogs
    /\ map alog_log alogs = logs
    /\ Forall (fun l => In (department l) get_departments) alogs.
Proof.
  induction logs as [|l logs [alogs [Ha [Hm Hf]]]]; simpl.
  - exists []. repeat split. constructor.
  - destruct (department_for get_departments (client_ip (log_entry l))) as [d|] eqn:E.
    + rewrite Ha. exists (mkalog l d :: alogs). repeat split.
      * simpl. now rewrite Hm.
      * constructor; [|exact Hf]. simpl. eapply department_for_in. exact E.
    + rewrite department_for_spec in E. discriminate.
Qed.

End AttributionFacts.

(* ================================================================== *)
(** * Facts about the calendar                                          *)
(* ================================================================== *)

Ltac bool_hyps :=
  repeat match goal with
  | H : _ && _ = true |- _ => apply andb_true_iff in H; destruct H
  | H : _ || _ = true |- _ => apply orb_true_iff in H; destruct H
  | H : _ && _ = false |- _ => apply andb_false_iff in H; destruct H
  | H : _ || _ = false |- _ => apply orb_false_iff in H; destruct H
  | H : negb _ = true |- _ => apply negb_true_iff in H
  | H : negb _ = false |- _ => apply negb_false_iff in H
  | H : (_ <? _) = true |- _ => apply Z.ltb_lt in H
  | H : (_ <? _) = false |- _ => apply Z.ltb_ge in H
  | H : (_ <=? _) = true |- _ => apply Z.leb_le in H
  | H : (_ <=? _) = false |- _ => apply Z.leb_gt in H
  | H : (_ =? _) = true |- _ => apply Z.eqb_eq in H
  | H : (_ =? _) = false |- _ => apply Z.eqb_neq in H
  end.

Ltac bool_cases :=
  repeat match goal with
  | |- context [?a <? ?b] => destruct (Z.ltb_spec a b)
  | |- context [?a <=? ?b] => destruct (Z.leb_spec a b)
  | |- context [?a =? ?b] => destruct (Z.eqb_spec a b)
  end.

Lemma days_in_month_bounds : forall y m, 28 <= days_in_month y m <= 31.
Proof.
  intros y m. unfold days_in_month.
  destruct (m =? 2); [destruct (isleap y); lia|].
  destruct ((m =? 4) || (m =? 6) || (m =? 9) || (m =? 11)); lia.
Qed.

Lemma valid_date_bounds : forall d,
  valid_date d = true ->
  1 <= year d <= 9999 /\ 1 <= month d <= 12
  /\ 1 <= day d <= days_in_month (year d) (month d).
Proof. intros d H. unfold valid_date in H. bool_hyps. lia. Qed.

Lemma make_date_clipped : forall y m d,
  1 <= y <= 9999 -> 1 <= m <= 12 -> 1 <= d ->
  make_date y m (Z.min (days_in_month y m) d)
  = Some (mkdate y m (Z.min (days_in_month y m) d)).
Proof.
  intros y m d Hy Hm Hd. unfold make_date.
  replace (valid_date (mkdate y m (Z.min (days_in_month y m) d))) with true; [reflexivity|].
  symmetry. unfold valid_date. cbn [year month day].
  pose proof (days_in_month_bounds y m).
  repeat (apply andb_true_iff; split); bool_cases; lia.
Qed.

Lemma date_leb_trans : forall a b c,
  date_leb a b = true -> date_leb b c = true -> date_leb a c = true.
Proof.
  intros a b c. unfold date_leb, date_ltb. intros H1 H2.
  apply negb_true_iff in H1, H2. apply negb_true_iff.
  bool_hyps; bool_cases; simpl; try reflexivity; try lia.
Qed.

Lemma date_leb_ltb_false : forall a b,
  date_ltb b a = true -> date_leb a b = false.
Proof. intros a b H. unfold date_leb. now rewrite H. Qed.

(** [_set_months] splits a number of months without changing it. *)
Lemma set_months_total : forall k,
  fst (set_months k) * 12 + snd (set_months k) = k.
Proof.
  intro k. unfold set_months. destruct (11 <? Z.abs k) eqn:E; [|simpl; lia].
  apply Z.ltb_lt in E. cbn [fst snd].
  pose proof (Z.div_mod (k * Z.sgn k) 12 ltac:(lia)) as Hdm.
  assert (Hs : Z.sgn k = 1 \/ Z.sgn k = -1) by lia.
  destruct Hs as [Hs|Hs]; rewrite Hs in *; lia.
Qed.

(** Adding [k] months lands in the month [k] places further, with the
    day cut down to the length of that month. *)
Lemma rd_add_set_months : forall dt k y1 m1,
  1 <= month dt <= 12 -> 1 <= m1 <= 12 ->
  y1 * 12 + m1 = year dt * 12 + month dt + k ->
  rd_add dt (set_months k) = make_date y1 m1 (Z.min (days_in_month y1 m1) (day dt)).
Proof.
  intros dt k y1 m1 Hm Hm1 Hk. unfold rd_add, set_months.
  destruct (11 <? Z.abs k) eqn:E.
  - apply Z.ltb_lt in E.
    pose proof (Z.div_mod (k * Z.sgn k) 12 ltac:(lia)) as Hdm.
    pose proof (Z.mod_pos_bound (k * Z.sgn k) 12 ltac:(lia)) as Hb.
    assert (Hs : Z.sgn k = 1 \/ Z.sgn k = -1) by lia.
    destruct Hs as [Hs|Hs]; rewrite Hs in *;
      set (q := (k * _) / 12) in *; set (r := (k * _) mod 12) in *;
      bool_cases;
      match goal with
      | |- make_date ?y ?m _ = _ =>
          replace y with y1 by lia; replace m with m1 by lia; reflexivity
      end.
  - apply Z.ltb_ge in E. bool_cases;
      match goal with
      | |- make_date ?y ?m _ = _ =>
          replace y with y1 by lia; replace m with m1 by lia; reflexivity
      end.
Qed.

Lemma rd_while_stop : forall fuel (up : bool) dt1 dt2 months dtm,
  (if up then date_ltb dtm dt1 else date_ltb dt1 dtm) = false ->
  rd_while fuel up dt1 dt2 months dtm = Done months.
Proof. intros [|f] up dt1 dt2 months dtm H; simpl; now rewrite H. Qed.

Lemma rd_while_step : forall f (up : bool) dt1 dt2 months dtm dtm',
  (if up then date_ltb dtm dt1 else date_ltb dt1 dtm) = true ->
  rd_add dt2 (set_months (months + (if up then 1 else -1))) = Some dtm' ->
  rd_while (S f) up dt1 dt2 months dtm
  = rd_while f up dt1 dt2 (months + (if up then 1 else -1)) dtm'.
Proof. intros f up dt1 dt2 months dtm dtm' H H'. simpl. now rewrite H, H'. Qed.

Lemma shift_month_spec : forall y m k,
  1 <= snd (shift_month y m k) <= 12
  /\ fst (shift_month y m k) * 12 + snd (shift_month y m k) = y * 12 + m + k.
Proof.
  intros y m k. unfold shift_month. cbn [fst snd].
  pose proof (Z.div_mod (y * 12 + m - 1 + k) 12 ltac:(lia)).
  pose proof (Z.mod_pos_bound (y * 12 + m - 1 + k) 12 ltac:(lia)). lia.
Qed.

(** [relativedelta] ends on valid dates after at most one adjustment and
    finds the whole-month span. *)
Lemma relativedelta_whole_months : forall fuel s e,
  (1 <= fuel)%nat -> valid_date s = true -> valid_date e = true ->
  relativedelta fuel e s = Done (set_months (whole_months s e)).
Proof.
  intros [|f] s e Hf Hs He; [lia|].
  apply valid_date_bounds in Hs, He.
  unfold relativedelta, whole_months.
  set (m0 := (year e - year s) * 12 + (month e - month s)).
  set (d0 := Z.min (days_in_month (year e) (month e)) (day s)).
  rewrite (rd_add_set_months s m0 (year e) (month e)) by (unfold m0; lia).
  rewrite make_date_clipped by lia. fold d0.
  pose proof (days_in_month_bounds (year e) (month e)) as Hdim.
  destruct (date_ltb e s) eqn:Eup.
  - (* dt1 < dt2: the loop counts upwards *)
    destruct (d0 <? day e) eqn:Ec.
    + pose proof (shift_month_spec (year e) (month e) 1) as Hsh.
      destruct (shift_month (year e) (month e) 1) as [y1 m1].
      cbn [fst snd] in Hsh. destruct Hsh as [Hm1 Hy1].
      unfold date_ltb in Eup. cbn [year month day] in Eup.
      assert (Hlt : year e * 12 + month e < year s * 12 + month s).
      { bool_hyps; subst d0; lia. }
      assert (Hadd : rd_add s (set_months (m0 + 1))
                     = Some (mkdate y1 m1 (Z.min (days_in_month y1 m1) (day s)))).
      { rewrite (rd_add_set_months s (m0 + 1) y1 m1) by (unfold m0; lia).
        apply make_date_clipped; lia. }
      rewrite (rd_while_step f true e s m0 _ _) with (2 := Hadd).
      * rewrite rd_while_stop; [reflexivity|].
        unfold date_ltb. cbn [year month day]. bool_cases; simpl; try reflexivity; lia.
      * unfold date_ltb. cbn [year month day].
        bool_hyps; bool_cases; simpl; try reflexivity; lia.
    + rewrite rd_while_stop; [reflexivity|].
      unfold date_ltb. cbn [year month day].
      bool_hyps; bool_cases; simpl; try reflexivity; lia.
  - (* dt1 >= dt2: the loop counts downwards *)
    destruct (day e <? d0) eqn:Ec.
    + pose proof (shift_month_spec (year e) (month e) (-1)) as Hsh.
      destruct (shift_month (year e) (month e) (-1)) as [y1 m1].
      cbn [fst snd] in Hsh. destruct Hsh as [Hm1 Hy1].
      unfold date_ltb in Eup. cbn [year month day] in Eup.
      assert (Hlt : year s * 12 + month s < year e * 12 + month e).
      { bool_hyps; subst d0; lia. }
      assert (Hadd : rd_add s (set_months (m0 + -1))
                     = Some (mkdate y1 m1 (Z.min (days_in_month y1 m1) (day s)))).
      { rewrite (rd_add_set_months s (m0 + -1) y1 m1) by (unfold m0; lia).
        apply make_date_clipped; lia. }
      rewrite (rd_while_step f false e s m0 _ _) with (2 := Hadd).
      * rewrite rd_while_stop; [reflexivity|].
        unfold date_ltb. cbn [year month day]. bool_cases; simpl; try reflexivity; lia.
      * unfold date_ltb. cbn [year month day].
        bool_hyps; bool_cases; simpl; try reflexivity; lia.
    + rewrite rd_while_stop; [reflexivity|].
      unfold date_ltb. cbn [year month day].
      bool_hyps; bool_cases; simpl; try reflexivity; lia.
Qed.

Lemma total_months_whole : forall fuel s e,
  (1 <= fuel)%nat -> valid_date s = true -> valid_date e = true ->
  total_months fuel s e = Done (whole_months s e).
Proof.
  intros fuel s e Hf Hs He. unfold total_months.
  rewrite relativedelta_whole_months by assumption.
  pose proof (set_months_total (whole_months s e)) as H.
  destruct (set_months (whole_months s e)) as [y m]. simpl in H. now rewrite H.
Qed.

(* ================================================================== *)
(** * Facts about the chart data                                        *)
(* ================================================================== *)

Lemma get_default_set_same : forall {K V} (eqb : K -> K -> bool),
  (forall a b, eqb a b = true <-> a = b) ->
  forall k (v dflt : V) d, Dict.get_default eqb k dflt (Dict.set eqb k v d) = v.
Proof.
  intros K V eqb Heq k v dflt d. unfold Dict.get_default.
  now rewrite get_set_same.
Qed.

Lemma get_default_set_other : forall {K V} (eqb : K -> K -> bool),
  (forall a b, eqb a b = true <-> a = b) ->
  forall k k' (v dflt : V) d,
  k <> k' -> Dict.get_default eqb k' dflt (Dict.set eqb k v d) = Dict.get_default eqb k' dflt d.
Proof.
  intros K V eqb Heq k k' v dflt d Hne. unfold Dict.get_default.
  now rewrite get_set_other.
Qed.

(** Case analysis on the lookup a [get_default] hides. *)
Ltac case_get x G :=
  match goal with
  | |- context [match ?g with Some _ => _ | None => _ end] => destruct g as [x|] eqn:G
  end.

Section ChartFacts.
Variables (f : freq) (end_date : date).

Lemma cells_ok_incr : forall p inner, cells_ok inner -> cells_ok (Dict.incr str_eqb p inner).
Proof.
  intros p inner [Hnd Hpos]. unfold Dict.incr. split.
  - apply NoDup_keys_set; [exact str_eqb_eq | exact Hnd].
  - apply Forall_values_set; [exact Hpos|].
    unfold Dict.get_default. case_get n G; [|lia].
    assert (1 <= n) by (eapply get_Forall_values; [exact Hpos | exact G]). lia.
Qed.

Lemma cells_ok_get_default : forall d (data : Dict.t str (Dict.t str Z)),
  Forall cells_ok (Dict.values data) -> cells_ok (Dict.get_default str_eqb d [] data).
Proof.
  intros d data H. unfold Dict.get_default. case_get inner G.
  - eapply get_Forall_values; [exact H | exact G].
  - split; constructor.
Qed.

Lemma chart_count_ok : forall data l,
  Forall cells_ok (Dict.values data) ->
  Forall cells_ok (Dict.values (chart_count f end_date data l)).
Proof.
  intros data l H. unfold chart_count.
  apply Forall_values_set; [exact H|].
  apply cells_ok_incr. now apply cells_ok_get_default.
Qed.

Lemma fold_chart_count_ok : forall logs data,
  Forall cells_ok (Dict.values data) ->
  Forall cells_ok (Dict.values (fold_left (chart_count f end_date) logs data)).
Proof.
  induction logs as [|l logs IH]; intros data H; simpl; [exact H|].
  apply IH. now apply chart_count_ok.
Qed.

Lemma chart_count_cell : forall data l d p,
  cell (chart_count f end_date data l) d p
  = cell data d p + (if in_cell f end_date d p l then 1 else 0).
Proof.
  intros data l d p. unfold cell, chart_count, in_cell, label.
  destruct (str_eqb (department l) d) eqn:Ed.
  - apply str_eqb_eq in Ed. subst d.
    rewrite get_default_set_same by exact str_eqb_eq. unfold Dict.incr.
    destruct (str_eqb (period_of f end_date (date_of l)) p) eqn:Ep.
    + apply str_eqb_eq in Ep. subst p.
      rewrite get_default_set_same by exact str_eqb_eq. reflexivity.
    + rewrite get_default_set_other; [simpl; lia | exact str_eqb_eq |].
      intro Heq. rewrite Heq, str_eqb_refl in Ep. discriminate.
  - rewrite get_default_set_other; [simpl; lia | exact str_eqb_eq |].
    intro Heq. rewrite Heq, str_eqb_refl in Ed. discriminate.
Qed.

(** A cell of the counting dictionary holds the number of records of
    that unit whose date has that label. *)
Lemma fold_chart_count_cell : forall logs data d p,
  cell (fold_left (chart_count f end_date) logs data) d p
  = cell data d p + count_if (in_cell f end_date d p) logs.
Proof.
  induction logs as [|l logs IH]; intros data d p; simpl fold_left.
  - unfold count_if. simpl. lia.
  - rewrite IH, chart_count_cell. unfold count_if. simpl filter.
    destruct (in_cell f end_date d p l); simpl length; lia.
Qed.

Lemma chart_count_sum : forall data l d,
  sumZ (Dict.values (Dict.get_default str_eqb d [] (chart_count f end_date data l)))
  = sumZ (Dict.values (Dict.get_default str_eqb d [] data))
    + (if in_dept d l then 1 else 0).
Proof.
  intros data l d. unfold chart_count, in_dept.
  destruct (str_eqb (department l) d) eqn:Ed.
  - apply str_eqb_eq in Ed. subst d.
    rewrite get_default_set_same by exact str_eqb_eq. apply sumZ_incr.
  - rewrite get_default_set_other; [lia | exact str_eqb_eq |].
    intro Heq. rewrite Heq, str_eqb_refl in Ed. discriminate.
Qed.

Lemma fold_chart_count_sum : forall logs data d,
  sumZ (Dict.values (Dict.get_default str_eqb d [] (fold_left (chart_count f end_date) logs data)))
  = sumZ (Dict.values (Dict.get_default str_eqb d [] data)) + count_if (in_dept d) logs.
Proof.
  induction logs as [|l logs IH]; intros data d; simpl fold_left.
  - unfold count_if. simpl. lia.
  - rewrite IH, chart_count_sum. unfold count_if. simpl filter.
    destruct (in_dept d l); simpl length; lia.
Qed.

(** Every row has a positive count, which is the number of records of
    its unit that carry its label. *)
Lemma chart_data_rows : forall filtered,
  Forall (fun r => 1 <= row_count r
                   /\ row_count r = count_if (in_cell f end_date (row_key r) (row_period r)) filtered)
         (chart_data f end_date filtered).
Proof.
  intro filtered. unfold chart_data, chart_rows.
  set (data := fold_left (chart_count f end_date) filtered []).
  assert (Hok : Forall cells_ok (Dict.values data)).
  { apply fold_chart_count_ok. constructor. }
  apply Forall_forall. intros r Hr.
  apply in_flat_map in Hr as [dept [_ Hr]].
  apply in_map_iff in Hr as [[p n] [<- Hpn]]. cbn [row_key row_period row_count].
  pose proof (cells_ok_get_default dept data Hok) as [Hnd Hpos].
  assert (G : Dict.get str_eqb p (Dict.get_default str_eqb dept [] data) = Some n).
  { apply In_get; [exact str_eqb_eq | exact Hnd | exact Hpn]. }
  split.
  - eapply get_Forall_values; [exact Hpos | exact G].
  - pose proof (fold_chart_count_cell filtered [] dept p) as Hc.
    fold data in Hc. unfold cell in Hc. unfold Dict.get_default at 1 in Hc.
    rewrite G in Hc. rewrite Hc. reflexivity.
Qed.

(** The labels of one unit are distinct: months that share a label share
    a row, whose count is their sum. *)
Lemma chart_data_labels : forall filtered dept,
  In dept get_departments ->
  let rows := filter (fun r => str_eqb (row_key r) dept) (chart_data f end_date filtered) in
  NoDup (map row_period rows)
  /\ sumZ (map row_count rows) = count_if (in_dept dept) filtered.
Proof.
  intros filtered dept Hin. unfold chart_data, chart_rows.
  set (data := fold_left (chart_count f end_date) filtered []).
  assert (Hok : Forall cells_ok (Dict.values data)).
  { apply fold_chart_count_ok. constructor. }
  assert (Hrows : forall deps, NoDup deps -> In dept deps ->
            filter (fun r => str_eqb (row_key r) dept)
              (flat_map (fun dept0 => map (fun '(period, n) => mkrow dept0 period n)
                                          (Dict.get_default str_eqb dept0 [] data)) deps)
            = map (fun '(period, n) => mkrow dept period n)
                  (Dict.get_default str_eqb dept [] data)).
  { induction deps as [|d0 deps IH]; intros Hnd Hd; [destruct Hd|].
    inversion Hnd as [|? ? Hni Hnd']; subst. simpl flat_map. rewrite filter_app.
    assert (Hkeep : forall d1 (inner : Dict.t str Z),
              filter (fun r => str_eqb (row_key r) dept)
                     (map (fun '(period, n) => mkrow d1 period n) inner)
              = if str_eqb d1 dept then map (fun '(period, n) => mkrow d1 period n) inner
                else []).
    { intros d1 inner. induction inner as [|[p n] inner IHi]; simpl.
      - now destruct (str_eqb d1 dept).
      - rewrite IHi. now destruct (str_eqb d1 dept). }
    rewrite Hkeep. destruct Hd as [->|Hd].
    - rewrite str_eqb_refl.
      assert (Hnone : forall deps', ~ In dept deps' ->
                filter (fun r => str_eqb (row_key r) dept)
                  (flat_map (fun dept0 => map (fun '(period, n) => mkrow dept0 period n)
                                              (Dict.get_default str_eqb dept0 [] data)) deps')
                = []).
      { induction deps' as [|d1 deps' IH']; intro Hn; [reflexivity|].
        simpl flat_map. rewrite filter_app, Hkeep.
        destruct (str_eqb d1 dept) eqn:E.
        - apply str_eqb_eq in E. subst. exfalso. apply Hn. now left.
        - simpl. apply IH'. intro H. apply Hn. now right. }
      rewrite (Hnone deps Hni). apply app_nil_r.
    - destruct (str_eqb d0 dept) eqn:E.
      + apply str_eqb_eq in E. subst. contradiction.
      + simpl. now apply IH. }
  cbv zeta. rewrite (Hrows get_departments NoDup_departments Hin).
  pose proof (cells_ok_get_default dept data Hok) as [Hnd _].
  split.
  - rewrite map_map. unfold Dict.keys in Hnd.
    erewrite map_ext; [exact Hnd|]. now intros [p n].
  - rewrite map_map.
    pose proof (fold_chart_count_sum filtered [] dept) as Hs. fold data in Hs.
    simpl in Hs. rewrite <- Hs. unfold Dict.values. f_equal.
    apply map_ext. now intros [p n].
Qed.

End ChartFacts.

(* ================================================================== *)
(** * Facts about the line parser                                       *)
(* ================================================================== *)

(** [split(sep, 1)] gives one piece exactly when [sep] does not occur. *)
Lemma split1_go_absent : forall sep s cur,
  contains sep s = false -> split1_go sep cur s = [cur ++ s].
Proof.
  intros sep. induction s as [|c s IH]; intros cur H.
  - now rewrite app_nil_r.
  - simpl in H. apply orb_false_iff in H as [H1 H2].
    cbn [split1_go]. rewrite H1, IH by exact H2. now rewrite <- app_assoc.
Qed.

Lemma split1_go_present : forall sep s cur,
  sep <> [] -> contains sep s = true ->
  exists a b, split1_go sep cur s = [a; b].
Proof.
  intros sep. induction s as [|c s IH]; intros cur Hne H.
  - destruct sep; [congruence | discriminate].
  - cbn [split1_go]. destruct (startswith sep (c :: s)) eqn:E.
    + now eexists _, _.
    + simpl in H. rewrite E in H. simpl in H. now apply IH.
Qed.

Section ParserFacts.
Context {U : Interpreter}.

Lemma strptime_valid : forall s t, strptime s = Some t -> valid_datetime t = true.
Proof.
  intros s t. unfold strptime.
  destruct (re_timestamp s) as [|[v rest] l]; [discriminate|].
  destruct v as [[[[[[[[[[Y ?] m] ?] d] ?] H] ?] M] ?] Sec].
  destruct rest; [|discriminate].
  unfold make_datetime.
  destruct (valid_datetime _) eqn:E; [|discriminate].
  intro Heq. injection Heq as <-. exact E.
Qed.

(** The loop over the field chunks never raises: a chunk with a colon
    always splits in two. *)
Lemma add_field_some : forall f item, exists f', add_field (Some f) item = Some f'.
Proof.
  intros f item. unfold add_field.
  destruct (contains (lit ":") item) eqn:E; [|now eexists].
  destruct (split1_go_present (lit ":") item [] ltac:(discriminate) E) as [a [b Hab]].
  unfold split1. rewrite Hab. now eexists.
Qed.

Lemma fold_add_field_some : forall items f,
  exists fields, fold_left add_field items (Some f) = Some fields.
Proof.
  induction items as [|item items IH]; intro f.
  - now exists f.
  - cbn [fold_left]. destruct (add_field_some f item) as [f' ->]. apply IH.
Qed.

Lemma parse_fields_some : forall data_part, exists fields, parse_fields data_part = Some fields.
Proof. intro data_part. apply fold_add_field_some. Qed.

Lemma In_set : forall (k : str) (v : str) d kv,
  In kv (Dict.set str_eqb k v d) -> kv = (k, v) \/ In kv d.
Proof.
  intros k v d kv. induction d as [|[k' v'] d IH]; simpl.
  - intros [<-|[]]. now left.
  - destruct (str_eqb k k') eqn:E; simpl.
    + apply str_eqb_eq in E. subst k'. intros [<-|H]; [now left | right; now right].
    + intros [<-|H]; [right; now left|].
      destruct (IH H) as [->|H']; [now left | right; now right].
Qed.

Lemma parse_fields_extracted : forall data_part fields,
  parse_fields data_part = Some fields -> Forall (extracted data_part) fields.
Proof.
  intros data_part fields. unfold parse_fields, extracted.
  set (items := split (lit ", '") data_part).
  assert (Hgen : forall its f0 f1,
            (forall it, In it its -> In it items) ->
            Forall (fun kv => exists item key value, In item items
                      /\ split1 (lit ":") item = [key; value]
                      /\ fst kv = strip_chars (lit " '") key
                      /\ snd kv = strip_chars (lit "'") (strip value)) f0 ->
            fold_left add_field its (Some f0) = Some f1 ->
            Forall (fun kv => exists item key value, In item items
                      /\ split1 (lit ":") item = [key; value]
                      /\ fst kv = strip_chars (lit " '") key
                      /\ snd kv = strip_chars (lit "'") (strip value)) f1).
  { induction its as [|it its IH]; intros f0 f1 Hsub H0 Hfold.
    - simpl in Hfold. now injection Hfold as <-.
    - simpl in Hfold. destruct (contains (lit ":") it) eqn:E.
      + destruct (split1 (lit ":") it) as [|key [|value [|? ?]]] eqn:Es;
          try (exfalso; clear - Hfold; induction its; simpl in Hfold; [discriminate | auto]).
        eapply IH; [| |exact Hfold].
        * intros it' Hit'. apply Hsub. now right.
        * apply Forall_forall. intros kv Hkv. apply In_set in Hkv as [->|Hkv].
          -- exists it, key, value. repeat split; [apply Hsub; now left | exact Es].
          -- rewrite Forall_forall in H0. now apply H0.
      + eapply IH; [| exact H0 | exact Hfold].
        intros it' Hit'. apply Hsub. now right. }
  intro H. eapply Hgen; [| |exact H]; [auto | constructor].
Qed.

(** The parser fails for exactly two reasons. *)
Lemma parse_log_entry_None : forall line,
  parse_log_entry line = None
  <-> contains (lit " - ") (clean_line line) = false
      \/ strptime (timestamp_text (clean_line line)) = None.
Proof.
  intro line. unfold parse_log_entry, timestamp_text.
  destruct (contains (lit " - ") (clean_line line)) eqn:E.
  - destruct (split1_go_present (lit " - ") (clean_line line) [] ltac:(discriminate) E)
      as [tp [dp Hs]].
    unfold split1. rewrite Hs. cbn [hd].
    destruct (strptime (hd [] (split (lit ",") tp))) as [ts|].
    + destruct (parse_fields_some dp) as [fields ->].
      split; [discriminate | intros [H|H]; discriminate].
    + split; [now right | reflexivity].
  - unfold split1. rewrite split1_go_absent by exact E.
    split; [now left | reflexivity].
Qed.

Lemma process_logs_fold : forall lines acc,
  fold_left (fun parsed line =>
               match parse_log_entry line with
               | Some e => parsed ++ [mklog e (dt_date (timestamp e))]
               | None => parsed
               end) lines acc
  = acc ++ flat_map parsed_line lines.
Proof.
  induction lines as [|line lines IH]; intro acc; simpl.
  - now rewrite app_nil_r.
  - rewrite IH. unfold parsed_line at 2.
    destruct (parse_log_entry line); [now rewrite <- app_assoc | reflexivity].
Qed.

Lemma process_logs_flat_map : forall lines,
  process_logs lines = flat_map parsed_line lines.
Proof. intro lines. unfold process_logs. now rewrite process_logs_fold. Qed.

End ParserFacts.

(* ================================================================== *)
(** * The claims                                                        *)
(* ================================================================== *)

Lemma filtered_logs_departments : forall parsed s e,
  Forall (fun l => In (department l) get_departments) parsed ->
  Forall (fun l => In (department l) get_departments) (filtered_logs parsed s e).
Proof.
  intros parsed s e H. unfold filtered_logs. apply Forall_forall.
  intros l Hl. apply filter_In in Hl as [Hl _].
  rewrite Forall_forall in H. now apply H.
Qed.

(** C2. Sum law: whatever the raw lines and the date range, the records
    that parse are all attributed, and in the unit matrix built from the
    filtered records the monthly counts of every unit add up to its
    total, while the totals of all units add up to the number of
    filtered records. *)
Theorem sum_law : forall {U : Interpreter} (raw_logs : list str) (start_date end_date : date),
  exists parsed_logs,
    assign_departments_to_logs (process_logs raw_logs) get_departments = Some parsed_logs
    /\ let filtered := filtered_logs parsed_logs start_date end_date in
       let m := dept_matrix get_departments filtered in
       Forall (fun s => sumZ (Dict.values (months s)) = total s) (Dict.values m)
       /\ sumZ (map total (Dict.values m)) = Z.of_nat (length filtered).
Proof.
  intros U raw_logs start_date end_date.
  destruct (assign_total (process_logs raw_logs)) as [parsed [Ha [_ Hd]]].
  exists parsed. split; [exact Ha|]. cbv zeta.
  apply general_sum_law. now apply filtered_logs_departments.
Qed.

(** C7. Unit coverage: for every list of filtered records, the empty one
    included, the rows of the unit matrix are exactly the six units, in
    their fixed order; each starts at total 0 with no month, and its
    total ends as the number of records attributed to it, so a unit
    without records keeps total 0. *)
Theorem unit_rows_fixed : forall filtered : list alog,
  Dict.keys (dept_matrix get_departments filtered) = get_departments
  /\ length get_departments = 6%nat
  /\ empty_matrix get_departments
     = map (fun dept => (dept, mkstats 0 [])) get_departments
  /\ dept_matrix get_departments [] = empty_matrix get_departments
  /\ Forall (fun row => total (snd row) = count_if (in_dept (fst row)) filtered)
            (dept_matrix get_departments filtered).
Proof.
  intro filtered. unfold dept_matrix.
  assert (Hkeys : Dict.keys (fold_left count_log filtered (empty_matrix get_departments))
                  = get_departments).
  { now rewrite fold_count_log_keys. }
  repeat split; try reflexivity; [exact Hkeys|].
  apply Forall_forall. intros [dept s] Hin. cbn [fst snd].
  assert (Hd : In dept get_departments).
  { rewrite <- Hkeys. change dept with (fst (dept, s)). now apply in_map. }
  assert (G0 : Dict.get str_eqb dept (empty_matrix get_departments) = Some (mkstats 0 [])).
  { apply In_get; [exact str_eqb_eq | exact NoDup_departments |].
    rewrite empty_matrix_departments.
    apply in_map_iff. now exists dept. }
  destruct (fold_count_log_get filtered _ dept _ G0) as [s' [Gs Ht]].
  assert (Gs' : Dict.get str_eqb dept (fold_left count_log filtered (empty_matrix get_departments))
                = Some s).
  { apply In_get; [exact str_eqb_eq | | exact Hin].
    rewrite Hkeys. exact NoDup_departments. }
  rewrite Gs in Gs'. injection Gs' as ->. rewrite Ht. simpl. lia.
Qed.

(** Each record of an attributed batch carries the unit found for its
    own address. *)
Lemma assign_link : forall {U : Interpreter} departments logs alogs,
  assign_departments_to_logs logs departments = Some alogs ->
  map alog_log alogs = logs
  /\ Forall (fun a => department_for departments (client_ip (log_entry (alog_log a)))
                      = Some (department a))
            alogs.
Proof.
  intros U departments. induction logs as [|l logs IH]; intros alogs H; simpl in H.
  - injection H as <-. split; [reflexivity | constructor].
  - destruct (department_for departments (client_ip (log_entry l))) as [d|] eqn:E;
      [|discriminate].
    destruct (assign_departments_to_logs logs departments) as [rest|]; [|discriminate].
    injection H as <-. destruct (IH rest eq_refl) as [Hm Hf]. split.
    + simpl. now rewrite Hm.
    + constructor; [exact E | exact Hf].
Qed.

(** C5. Unit attribution keeps at most the first four numeric tokens of
    the address; the last octet is the fourth token as an integer when
    four were found and 0 otherwise; the unit is the one at index
    last octet mod 6 of the fixed list, and the first unit when the
    conversion fails. Attribution of a batch returns the same records in
    the same order, each with the unit computed in this way from its own
    address. The example line of the specification parses to address
    10.0.0.7 and name "Ivanov I.I.", and the record made of it goes to
    the second unit. *)
Theorem unit_attribution : forall {U : Interpreter} (ip : str),
  (length (octets ip) <= 4)%nat
  /\ Forall (fun t => isdigit t = true) (octets ip)
  /\ octets ip = firstn 4 (filter isdigit (split (lit ".") ip))
  /\ department_for get_departments ip
     = Some (match (if (length (octets ip) =? 4)%nat
                    then py_int (last (octets ip) [])
                    else Some 0) with
             | Some last_octet => nth (Z.to_nat (last_octet mod 6)) get_departments []
             | None => nth 0 get_departments []
             end)
  /\ parse_log_entry example_line = Some example_entry
  /\ department_for get_departments (client_ip example_entry)
     = Some (nth (Z.to_nat (7 mod 6)) get_departments [])
  /\ nth (Z.to_nat (7 mod 6)) get_departments [] = lit "Управление 2"
  /\ (forall logs : list log, exists alogs,
        assign_departments_to_logs logs get_departments = Some alogs
        /\ map alog_log alogs = logs
        /\ Forall (fun a =>
                     department a
                     = match (if (length (octets (client_ip (log_entry (alog_log a))))
                                  =? 4)%nat
                              then py_int (last (octets (client_ip (log_entry (alog_log a))))
                                                [])
                              else Some 0) with
                       | Some last_octet =>
                           nth (Z.to_nat (last_octet mod 6)) get_departments []
                       | None => nth 0 get_departments []
                       end)
                  alogs)
  /\ assign_departments_to_logs (process_logs [example_line]) get_departments
     = Some [mkalog (mklog example_entry (mkdate 2024 1 15)) (lit "Управление 2")]
  /\ fullname example_entry = lit "Ivanov I.I.".
Proof.
  intros U ip. split; [apply octets_length|]. split; [apply octets_isdigit|].
  split; [reflexivity|]. split; [apply department_for_spec|].
  split; [vm_compute; reflexivity|]. split; [vm_compute; reflexivity|].
  split; [vm_compute; reflexivity|]. split; [|split; vm_compute; reflexivity].
  intro logs. destruct (assign_total logs) as [alogs [Ha [Hm _]]].
  exists alogs. split; [exact Ha|]. split; [exact Hm|].
  destruct (assign_link get_departments logs alogs Ha) as [_ Hf].
  eapply Forall_impl; [|exact Hf]. intros a Hd. cbv beta in Hd.
  rewrite department_for_spec in Hd. unfold spec_last_octet in Hd.
  match type of Hd with Some ?r = _ => remember r as r' eqn:Er end.
  injection Hd as Hd. rewrite <- Hd, Er. reflexivity.
Qed.

(** C9, as the code has it. Attribution of any address gives a unit of
    the fixed list, and a whole batch is always attributed. With fewer
    than four numeric tokens, as for the "unknown" default, the [try]
    block ends without an exception on the first unit. The [except]
    branch is reached exactly when four numeric tokens were found and
    [int] refuses the fourth: it holds a character that is a digit for
    [isdigit] but not a decimal digit, or it is longer than the
    interpreter's limit; the record then gets the first unit. *)
Theorem attribution_total : forall {U : Interpreter} (ip : str),
  (exists d, department_for get_departments ip = Some d /\ In d get_departments)
  /\ (forall logs, exists alogs,
        assign_departments_to_logs logs get_departments = Some alogs
        /\ map alog_log alogs = logs)
  /\ ((length (octets ip) < 4)%nat ->
      try_department get_departments ip = Some (nth 0 get_departments []))
  /\ try_department get_departments unknown = Some (nth 0 get_departments [])
  /\ (try_department get_departments ip = None
      <-> length (octets ip) = 4%nat
          /\ (too_long (last (octets ip) []) = true
              \/ exists c, In c (last (octets ip) [])
                           /\ isdigit_cp c = true /\ decimal c = None))
  /\ (try_department get_departments ip = None ->
      department_for get_departments ip = Some (nth 0 get_departments [])).
Proof.
  intros U ip. split; [|split; [|split; [|split; [|split]]]].
  - rewrite department_for_spec. eexists. split; [reflexivity|].
    eapply department_for_in. apply department_for_spec.
  - intro logs. destruct (assign_total logs) as [alogs [Ha [Hm _]]].
    exists alogs. now split.
  - intro Hlt. rewrite try_department_spec. unfold spec_last_octet.
    replace (length (octets ip) =? 4)%nat with false; [reflexivity|].
    symmetry. apply Nat.eqb_neq. lia.
  - vm_compute. reflexivity.
  - rewrite try_department_spec. unfold spec_last_octet. split.
    + intro H.
      destruct (length (octets ip) =? 4)%nat eqn:E; [|discriminate].
      apply Nat.eqb_eq in E. split; [exact E|].
      pose proof (octets_isdigit ip) as Hd.
      assert (Hlast : In (last (octets ip) []) (octets ip)).
      { destruct (octets ip) as [|t toks]; [discriminate|].
        clear. revert t. induction toks as [|t' toks IH]; intro t0.
        - now left.
        - right. apply (IH t'). }
      rewrite Forall_forall in Hd. specialize (Hd _ Hlast).
      destruct (last (octets ip) []) as [|x s]; [discriminate|].
      destruct (py_int (x :: s)) as [n|] eqn:Ei; [discriminate|].
      apply py_int_None in Ei as [Hlong|[c [Hc Hdec]]]; [now left | | discriminate].
      right. exists c. repeat split; [exact Hc | | exact Hdec].
      unfold isdigit in Hd. rewrite forallb_forall in Hd. now apply Hd.
    + intros [Hlen Hwhy].
      rewrite Hlen. simpl Nat.eqb. cbv iota.
      replace (py_int (last (octets ip) [])) with (@None Z); [reflexivity|].
      symmetry. destruct (last (octets ip) []) as [|x s] eqn:El.
      * reflexivity.
      * apply py_int_None; [discriminate|].
        destruct Hwhy as [Hlong|[c [Hc [_ Hdec]]]]; [now left | right; now exists c].
  - intro H. unfold department_for. now rewrite H.
Qed.

(** C9, as stated, fails: the superscript two is a digit for [isdigit]
    and not for [int], so an address whose fourth token is that
    character makes the [try] block raise. *)
Lemma superscript_digit_reaches_fallback :
  let line := lit "2024-01-15 09:00:00,123 - ('Client_IP:'1.2.3.²', 'ФИО:'Ivanov I.I.'')" in
  let ip := lit "1.2.3.²" in
  option_map client_ip (parse_log_entry (U:=sample_interpreter) line) = Some ip
  /\ octets (U:=sample_interpreter) ip = [lit "1"; lit "2"; lit "3"; lit "²"]
  /\ try_department (U:=sample_interpreter) get_departments ip = None
  /\ department_for (U:=sample_interpreter) get_departments ip
     = Some (nth 0 get_departments [])
  /\ ~ (forall (U : Interpreter) (ip : str), try_department get_departments ip <> None).
Proof.
  cbv zeta. repeat (split; [reflexivity|]).
  intro H. apply (H sample_interpreter (lit "1.2.3.²")). reflexivity.
Qed.

Lemma prepare_chart_data_done : forall fuel filtered s e,
  (1 <= fuel)%nat -> valid_date s = true -> valid_date e = true ->
  prepare_chart_data fuel filtered s e
  = Done (chart_data (freq_of (whole_months s e)) e filtered, freq_of (whole_months s e)).
Proof.
  intros fuel filtered s e Hf Hs He. unfold prepare_chart_data.
  now rewrite total_months_whole.
Qed.

(** The decimal texts the labels are made of, checked on every year and
    every month a date can have. *)
Lemma year_texts_checked :
  forallb (fun y => str_eqb (str_of_Z y) (plain_digits y)
                    && str_eqb (zfill 4 (str_of_Z y)) (four_digits y))
          (map Z.of_nat (seq 1 (Z.to_nat 9999))) = true.
Proof. vm_compute. reflexivity. Qed.

Lemma month_texts_checked :
  forallb (fun m => str_eqb (zfill 2 (str_of_Z m)) (two_digits m))
          (map Z.of_nat (seq 1 12)) = true.
Proof. vm_compute. reflexivity. Qed.

Lemma year_texts : forall y,
  1 <= y <= 9999 ->
  str_of_Z y = plain_digits y /\ zfill 4 (str_of_Z y) = four_digits y.
Proof.
  intros y Hy. pose proof year_texts_checked as H.
  rewrite forallb_forall in H. specialize (H y).
  assert (Hin : In y (map Z.of_nat (seq 1 (Z.to_nat 9999)))).
  { apply in_map_iff. exists (Z.to_nat y). split; [lia | apply in_seq; lia]. }
  apply H in Hin. apply andb_true_iff in Hin as [H1 H2].
  split; now apply str_eqb_eq.
Qed.

Lemma month_texts : forall m, 1 <= m <= 12 -> zfill 2 (str_of_Z m) = two_digits m.
Proof.
  intros m Hm. pose proof month_texts_checked as H.
  rewrite forallb_forall in H. specialize (H m).
  assert (Hin : In m (map Z.of_nat (seq 1 12))).
  { apply in_map_iff. exists (Z.to_nat m). split; [lia | apply in_seq; lia]. }
  apply H in Hin. now apply str_eqb_eq.
Qed.

Lemma fstring_year_month_text : forall y m,
  1 <= y <= 9999 -> 1 <= m <= 12 -> fstring_year_month y m = year_month_text y m.
Proof.
  intros y m Hy Hm. unfold fstring_year_month, year_month_text.
  rewrite (proj1 (year_texts y Hy)), (month_texts m Hm). reflexivity.
Qed.

Lemma strftime_Y_text : forall d,
  valid_date d = true -> strftime_Y d = bare_year_text (year d).
Proof.
  intros d H. apply valid_date_bounds in H. unfold strftime_Y, bare_year_text.
  apply year_texts. lia.
Qed.

Lemma strftime_Ym_text : forall d,
  valid_date d = true -> strftime_Ym d = padded_year_month_text (year d) (month d).
Proof.
  intros d H. unfold strftime_Ym. rewrite (strftime_Y_text d H).
  apply valid_date_bounds in H. rewrite month_texts by lia. reflexivity.
Qed.

Lemma digit_char_not_hyphen : forall v, 0 <= v -> digit_char v <> 45%N.
Proof. intros v Hv. unfold digit_char. lia. Qed.

(** A bare-year label has no hyphen; a year-month label has one. *)
Lemma bare_year_no_hyphen : forall y, 0 <= y -> ~ In 45%N (bare_year_text y).
Proof.
  intros y Hy. unfold bare_year_text, four_digits.
  pose proof (Z.div_pos y 1000 Hy ltac:(lia)).
  pose proof (Z.mod_pos_bound (y / 100) 10 ltac:(lia)).
  pose proof (Z.mod_pos_bound (y / 10) 10 ltac:(lia)).
  pose proof (Z.mod_pos_bound y 10 ltac:(lia)).
  intros [H'|[H'|[H'|[H'|[]]]]]; revert H'; apply digit_char_not_hyphen; lia.
Qed.

Lemma year_month_has_hyphen : forall y m, In 45%N (year_month_text y m).
Proof.
  intros y m. unfold year_month_text. apply in_or_app. right. now left.
Qed.

Lemma digit_char_inj : forall a b, 0 <= a -> 0 <= b -> digit_char a = digit_char b -> a = b.
Proof. intros a b Ha Hb. unfold digit_char. lia. Qed.

(** Two months of one year never share a year-month label. *)
Lemma year_month_text_month : forall y m m',
  1 <= m <= 12 -> 1 <= m' <= 12 ->
  year_month_text y m = year_month_text y m' -> m = m'.
Proof.
  intros y m m' Hm Hm' H. unfold year_month_text in H.
  apply app_inv_head in H. injection H as H1 H2.
  pose proof (Z.div_mod m 10 ltac:(lia)). pose proof (Z.div_mod m' 10 ltac:(lia)).
  pose proof (Z.mod_pos_bound m 10 ltac:(lia)).
  pose proof (Z.mod_pos_bound m' 10 ltac:(lia)).
  pose proof (Z.div_pos m 10 ltac:(lia) ltac:(lia)).
  pose proof (Z.div_pos m' 10 ltac:(lia) ltac:(lia)).
  apply digit_char_inj in H1; [|lia..]. apply digit_char_inj in H2; [|lia..]. lia.
Qed.

(** Counting over a list, one element at a time. *)
Lemma count_if_cons : forall {A} (p : A -> bool) x l,
  count_if p (x :: l) = (if p x then 1 else 0) + count_if p l.
Proof.
  intros A p x l. unfold count_if. simpl. destruct (p x); simpl length; lia.
Qed.

(** An element that satisfies the test is counted. *)
Lemma count_if_In : forall {A} (p : A -> bool) x l,
  In x l -> p x = true -> 1 <= count_if p l.
Proof.
  intros A p x l Hin Hp. induction l as [|y l IH]; [destruct Hin|].
  rewrite count_if_cons. destruct Hin as [->|Hin].
  - rewrite Hp. unfold count_if. lia.
  - specialize (IH Hin). destruct (p y); lia.
Qed.

(** Every record of one of the units has its row in the chart data,
    under the label of its date. *)
Lemma chart_data_has_row : forall f e filtered l,
  In l filtered -> In (department l) get_departments ->
  exists r, In r (chart_data f e filtered)
            /\ row_key r = department l
            /\ row_period r = period_of f e (date_of l)
            /\ 1 <= row_count r.
Proof.
  intros f e filtered l Hl Hd. unfold chart_data, chart_rows.
  set (data := fold_left (chart_count f e) filtered []).
  set (p := period_of f e (date_of l)).
  pose proof (fold_chart_count_cell f e filtered [] (department l) p) as Hc.
  fold data in Hc.
  assert (Hpos : 1 <= count_if (in_cell f e (department l) p) filtered).
  { apply count_if_In with (x := l); [exact Hl|].
    unfold in_cell, label. fold p. rewrite !str_eqb_refl. reflexivity. }
  unfold cell in Hc. simpl in Hc.
  unfold Dict.get_default at 1 in Hc.
  destruct (Dict.get str_eqb p (Dict.get_default str_eqb (department l) [] data))
    as [n|] eqn:G; [|lia].
  exists (mkrow (department l) p n). cbn [row_key row_period row_count].
  split; [|split; [reflexivity | split; [reflexivity | lia]]].
  apply in_flat_map. exists (department l). split; [exact Hd|].
  apply in_map_iff. exists (p, n). split; [reflexivity|].
  eapply get_In; [exact str_eqb_eq | exact G].
Qed.

(** The two branches of the yearly label. *)
Lemma period_of_year_month : forall e d,
  valid_date d = true -> year d = year e -> month d <= month e ->
  period_of Year e d = year_month_text (year d) (month d).
Proof.
  intros e d Hd Hy Hm. unfold period_of.
  replace ((year d =? year e) && (month d <=? month e)) with true
    by (symmetry; apply andb_true_iff; split; lia).
  apply valid_date_bounds in Hd. apply fstring_year_month_text; lia.
Qed.

Lemma period_of_bare_year : forall e d,
  year d <> year e \/ month e < month d ->
  period_of Year e d = strftime_Y d.
Proof.
  intros e d H. unfold period_of.
  replace ((year d =? year e) && (month d <=? month e)) with false; [reflexivity|].
  symmetry. apply andb_false_iff. destruct H; [left | right]; lia.
Qed.

(** C3. For valid dates the span is found as years * 12 + months of
    [relativedelta(end_date, start_date)], the number of whole months
    between the dates; the grouping is monthly when the span is at most
    12 and yearly otherwise (10 months: monthly; 25 months: yearly). In
    the yearly case a date of the end year with a month up to the end
    month gets the year-month label, the year number, a hyphen and the
    month on two digits, and every other date the bare year, four
    digits without a hyphen: the two kinds of label never coincide, and
    two months of the end year never share one. Each row of the chart
    counts the records of its unit under that label, and every record of
    one of the units is counted in the row of its own label. Over
    eighteen months ending in June 2024 a visit of May 2024 is counted
    under 2024-05 and a visit of March 2023 under 2023. *)
Theorem period_resolution : forall (fuel : nat) (filtered : list alog) (start_date end_date : date),
  (1 <= fuel)%nat -> valid_date start_date = true -> valid_date end_date = true ->
  let span := whole_months start_date end_date in
  let f := if span <=? 12 then Month else Year in
  (exists years months,
      relativedelta fuel end_date start_date = Done (years, months)
      /\ years * 12 + months = span)
  /\ total_months fuel start_date end_date = Done span
  /\ prepare_chart_data fuel filtered start_date end_date
     = Done (chart_data f end_date filtered, f)
  /\ prepare_employee_data fuel [] start_date end_date = Done ([], f)
  /\ (forall d, period_of Year end_date d
                = if (year d =? year end_date) && (month d <=? month end_date)
                  then fstring_year_month (year d) (month d)
                  else strftime_Y d)
  /\ (forall d, period_of Month end_date d = strftime_Ym d)
  /\ Forall (fun r => row_count r
                      = count_if (fun l => str_eqb (department l) (row_key r)
                                           && str_eqb (period_of f end_date (date_of l))
                                                      (row_period r))
                                 filtered)
            (chart_data f end_date filtered)
  /\ total_months 1 (mkdate 2024 1 15) (mkdate 2024 11 15) = Done 10
  /\ freq_of 10 = Month
  /\ total_months 1 (mkdate 2022 1 15) (mkdate 2024 2 15) = Done 25
  /\ freq_of 25 = Year
  /\ (forall d, valid_date d = true ->
                year d = year end_date -> month d <= month end_date ->
                period_of Year end_date d = year_month_text (year d) (month d))
  /\ (forall d, valid_date d = true -> 1000 <= year d ->
                year d <> year end_date \/ month end_date < month d ->
                period_of Year end_date d = bare_year_text (year d))
  /\ (forall d, valid_date d = true -> 1000 <= year d ->
                period_of Month end_date d = padded_year_month_text (year d) (month d))
  /\ (forall d d', valid_date d = true -> valid_date d' = true ->
                   year d = year end_date -> month d <= month end_date ->
                   year d' <> year end_date \/ month end_date < month d' ->
                   period_of Year end_date d <> period_of Year end_date d')
  /\ (forall d d', valid_date d = true -> valid_date d' = true ->
                   year d = year end_date -> month d <= month end_date ->
                   year d' = year end_date -> month d' <= month end_date ->
                   period_of Year end_date d = period_of Year end_date d' ->
                   month d = month d')
  /\ (forall l, In l filtered -> In (department l) get_departments ->
                exists r, In r (chart_data f end_date filtered)
                          /\ row_key r = department l
                          /\ row_period r = period_of f end_date (date_of l)
                          /\ 1 <= row_count r)
  /\ prepare_chart_data 1 two_years_of_visits (mkdate 2023 1 1) (mkdate 2024 6 30)
     = Done ([mkrow (lit "Управление 2") (lit "2024-05") 1;
              mkrow (lit "Управление 2") (lit "2023") 1], Year).
Proof.
  intros fuel filtered s e Hf Hs He span f.
  split; [|split; [|split; [|split; [|split; [|split; [|split; [|split; [|split;
    [|split; [|split; [|split; [|split; [|split; [|split; [|split; [|split]]]]]]]]]]]]]]]].
  - rewrite relativedelta_whole_months by assumption.
    pose proof (set_months_total (whole_months s e)) as H.
    destruct (set_months (whole_months s e)) as [y m]. now exists y, m.
  - now apply total_months_whole.
  - now apply prepare_chart_data_done.
  - unfold prepare_employee_data. now rewrite total_months_whole.
  - reflexivity.
  - reflexivity.
  - pose proof (chart_data_rows f e filtered) as H.
    eapply Forall_impl; [|exact H]. intros r [_ Hr]. exact Hr.
  - reflexivity.
  - reflexivity.
  - reflexivity.
  - reflexivity.
  - intros d Hd Hy Hm. now apply period_of_year_month.
  - intros d Hd _ Hother. rewrite period_of_bare_year by exact Hother.
    now apply strftime_Y_text.
  - intros d Hd _. simpl. now apply strftime_Ym_text.
  - intros d d' Hd Hd' Hy Hm Hother Heq.
    rewrite (period_of_year_month e d Hd Hy Hm) in Heq.
    rewrite (period_of_bare_year e d' Hother), (strftime_Y_text d' Hd') in Heq.
    apply valid_date_bounds in Hd'.
    apply (bare_year_no_hyphen (year d')); [lia|].
    rewrite <- Heq. apply year_month_has_hyphen.
  - intros d d' Hd Hd' Hy Hm Hy' Hm' Heq.
    rewrite (period_of_year_month e d Hd Hy Hm) in Heq.
    rewrite (period_of_year_month e d' Hd' Hy' Hm') in Heq.
    apply valid_date_bounds in Hd, Hd'. rewrite Hy, Hy' in Heq.
    apply (year_month_text_month (year e)); [lia | lia | exact Heq].
  - intros l Hl Hdept. now apply chart_data_has_row.
  - vm_compute. reflexivity.
Qed.

Lemma period_resolution_witness :
  let s := mkdate 2023 1 1 in
  let e := mkdate 2024 6 30 in
  valid_date s = true /\ valid_date e = true
  /\ total_months 1 s e = Done 17
  /\ prepare_chart_data 1 two_years_of_visits s e
     = Done ([mkrow (lit "Управление 2") (lit "2024-05") 1;
              mkrow (lit "Управление 2") (lit "2023") 1], Year)
  /\ period_of Year e (mkdate 2024 5 15) = lit "2024-05"
  /\ period_of Year e (mkdate 2023 3 9) = lit "2023"
  /\ period_of Year e (mkdate 2024 5 15) <> period_of Year e (mkdate 2023 3 9)
  /\ (exists r, In r (chart_data Year e two_years_of_visits)
                /\ row_key r = lit "Управление 2"
                /\ row_period r = lit "2024-05" /\ 1 <= row_count r).
Proof.
  pose proof (period_resolution 1 two_years_of_visits (mkdate 2023 1 1) (mkdate 2024 6 30)
                (le_n 1) eq_refl eq_refl) as H.
  cbv zeta in H.
  destruct H as [_ [H2 [H3 [_ [_ [_ [_ [_ [_ [_ [_ [H12 [H13 [_ [H15 [_ [H17 _]]]]]]]]]]]]]]]]].
  cbv zeta.
  split; [reflexivity|]. split; [reflexivity|].
  split; [exact H2|]. split; [exact H3|].
  split; [exact (H12 (mkdate 2024 5 15) eq_refl eq_refl ltac:(simpl; lia))|].
  split; [exact (H13 (mkdate 2023 3 9) eq_refl ltac:(simpl; lia)
                     ltac:(left; simpl; lia))|].
  split; [exact (H15 (mkdate 2024 5 15) (mkdate 2023 3 9) eq_refl eq_refl eq_refl
                     ltac:(simpl; lia) ltac:(left; simpl; lia))|].
  exact (H17 (sample_log 2024 5 15 "10.0.0.7" "Ivanov I.I.")
             ltac:(left; reflexivity) ltac:(right; left; reflexivity)).
Defined.

Lemma count_if_cell_le : forall f e d p logs,
  count_if (in_cell f e d p) logs <= count_if (in_dept d) logs.
Proof.
  intros f e d p logs. unfold count_if, in_cell, in_dept.
  induction logs as [|l logs IH]; simpl; [lia|].
  destruct (str_eqb (department l) d); simpl; [|exact IH].
  destruct (str_eqb (label f e l) p); simpl length; lia.
Qed.

(** C10. The chart data hold a row only for a unit and a label with at
    least one record: every count is positive and is the number of
    records of that unit under that label, so a unit without records in
    the window has no row in the chart, although it keeps its row in the
    unit matrix. *)
Theorem chart_rows_positive : forall (fuel : nat) (filtered : list alog) (start_date end_date : date),
  (1 <= fuel)%nat -> valid_date start_date = true -> valid_date end_date = true ->
  exists rows f,
    prepare_chart_data fuel filtered start_date end_date = Done (rows, f)
    /\ Forall (fun r => 1 <= row_count r
                        /\ row_count r
                           = count_if (fun l => str_eqb (department l) (row_key r)
                                                && str_eqb (period_of f end_date (date_of l))
                                                           (row_period r))
                                      filtered)
              rows
    /\ (forall dept, count_if (in_dept dept) filtered = 0 ->
                     Forall (fun r => row_key r <> dept) rows)
    /\ Dict.keys (dept_matrix get_departments filtered) = get_departments
    /\ prepare_chart_data fuel [] start_date end_date = Done ([], f).
Proof.
  intros fuel filtered s e Hf Hs He.
  exists (chart_data (freq_of (whole_months s e)) e filtered), (freq_of (whole_months s e)).
  pose proof (chart_data_rows (freq_of (whole_months s e)) e filtered) as Hrows.
  split; [now apply prepare_chart_data_done|].
  split; [exact Hrows|]. split; [|split].
  - intros dept Hzero. eapply Forall_impl; [|exact Hrows].
    intros r [Hpos Hcnt] Heq. subst dept.
    pose proof (count_if_cell_le (freq_of (whole_months s e)) e
                  (row_key r) (row_period r) filtered) as Hle.
    lia.
  - apply dept_matrix_keys.
  - now rewrite prepare_chart_data_done.
Qed.

Lemma chart_rows_positive_witness :
  exists rows f,
    prepare_chart_data 1 [sample_log 2024 1 15 "10.0.0.7" "Ivanov I.I."]
                       (mkdate 2024 1 1) (mkdate 2024 3 31) = Done (rows, f)
    /\ Forall (fun r => 1 <= row_count r) rows.
Proof.
  destruct (chart_rows_positive 1 [sample_log 2024 1 15 "10.0.0.7" "Ivanov I.I."]
              (mkdate 2024 1 1) (mkdate 2024 3 31) (le_n 1) eq_refl eq_refl)
    as [rows [f [H1 [H2 _]]]].
  exists rows, f. split; [exact H1|].
  eapply Forall_impl; [|exact H2]. intros r [Hr _]. exact Hr.
Defined.

Lemma first_of_month : forall d,
  valid_date d = true ->
  make_date (year d) (month d) 1 = Some (mkdate (year d) (month d) 1).
Proof.
  intros d H. apply valid_date_bounds in H.
  pose proof (days_in_month_bounds (year d) (month d)) as Hdim.
  pose proof (make_date_clipped (year d) (month d) 1) as Hc.
  rewrite Z.min_r in Hc by lia. apply Hc; lia.
Qed.

Lemma month_loop_stop : forall fuel current end_date months,
  date_leb current end_date = false ->
  month_loop fuel current end_date months = Done months.
Proof. intros [|f] current end_date months H; simpl; now rewrite H. Qed.

(** A start month later than the end month: the loop body never runs. *)
Lemma get_month_range_inverted : forall fuel s e,
  valid_date s = true -> valid_date e = true ->
  year e * 12 + month e < year s * 12 + month s ->
  get_month_range fuel s e = Done [].
Proof.
  intros fuel s e Hs He Hlt. unfold get_month_range.
  rewrite (first_of_month s Hs), (first_of_month e He).
  rewrite month_loop_stop; [reflexivity|].
  apply valid_date_bounds in Hs, He.
  unfold date_leb, date_ltb. cbn [year month day]. apply negb_false_iff.
  bool_cases; simpl; try reflexivity; lia.
Qed.

(** Start and end in the same month: the loop body runs once. *)
Lemma get_month_range_same_month : forall fuel s e,
  (1 <= fuel)%nat -> valid_date s = true -> valid_date e = true ->
  year s = year e -> month s = month e ->
  year e * 12 + month e < 9999 * 12 + 12 ->
  get_month_range fuel s e = Done [(year e, month e)].
Proof.
  intros [|f] s e Hf Hs He Hy Hm Hlast; [lia|]. unfold get_month_range.
  rewrite (first_of_month s Hs), (first_of_month e He). rewrite Hy, Hm.
  apply valid_date_bounds in Hs, He.
  set (cur := mkdate (year e) (month e) 1).
  pose proof (shift_month_spec (year e) (month e) 1) as Hsh.
  destruct (shift_month (year e) (month e) 1) as [y1 m1].
  cbn [fst snd] in Hsh. destruct Hsh as [Hm1 Hy1].
  assert (Hnext : next_month cur = Some (mkdate y1 m1 1)).
  { unfold next_month. change (0, 1) with (set_months 1).
    rewrite (rd_add_set_months cur 1 y1 m1) by (unfold cur; cbn [year month]; lia).
    pose proof (days_in_month_bounds y1 m1) as Hdim.
    pose proof (make_date_clipped y1 m1 1) as Hc. unfold cur. cbn [day].
    rewrite Z.min_r in * by lia. apply Hc; lia. }
  cbn [month_loop].
  replace (date_leb cur cur) with true.
  2:{ symmetry. unfold date_leb, date_ltb. apply negb_true_iff.
      bool_cases; simpl; try reflexivity; lia. }
  rewrite Hnext. rewrite month_loop_stop; [reflexivity|].
  unfold date_leb, date_ltb, cur. cbn [year month day]. apply negb_false_iff.
  bool_cases; simpl; try reflexivity; lia.
Qed.

Lemma filtered_logs_inverted : forall parsed s e,
  date_ltb e s = true -> filtered_logs parsed s e = [].
Proof.
  intros parsed s e H. unfold filtered_logs.
  induction parsed as [|l parsed IH]; [reflexivity|]. simpl.
  destruct (date_leb s (date_of l)) eqn:E1; [|exact IH].
  destruct (date_leb (date_of l) e) eqn:E2; [|exact IH].
  pose proof (date_leb_trans _ _ _ E1 E2) as Ht.
  rewrite (date_leb_ltb_false s e H) in Ht. discriminate.
Qed.

(** C8, as the code has it. When the start date is after the end date,
    no record passes the date filter, so the unit matrix holds the six
    units with total 0, the employee matrix of every unit is empty and
    the chart data have no row, without any error. The list of buckets
    is empty when the start month is later than the end month; when both
    dates lie in one month (before December 9999) it holds that month. *)
Theorem inverted_range_results :
  forall (fuel : nat) (parsed_logs : list alog) (start_date end_date : date),
  valid_date start_date = true -> valid_date end_date = true ->
  date_ltb end_date start_date = true ->
  let filtered := filtered_logs parsed_logs start_date end_date in
  filtered = []
  /\ dept_matrix get_departments filtered
     = map (fun dept => (dept, mkstats 0 [])) get_departments
  /\ (forall dept, employee_matrix (dept_logs filtered dept) = [])
  /\ ((1 <= fuel)%nat ->
      exists f, prepare_chart_data fuel filtered start_date end_date = Done ([], f))
  /\ (year end_date * 12 + month end_date < year start_date * 12 + month start_date ->
      get_month_range fuel start_date end_date = Done [])
  /\ ((1 <= fuel)%nat ->
      year start_date = year end_date -> month start_date = month end_date ->
      (year end_date, month end_date) <> (9999, 12) ->
      get_month_range fuel start_date end_date = Done [(year end_date, month end_date)]).
Proof.
  intros fuel parsed s e Hs He Hlt filtered.
  assert (Hf : filtered = []) by (apply filtered_logs_inverted; exact Hlt).
  rewrite Hf. split; [reflexivity|]. split; [reflexivity|].
  split; [reflexivity|]. split; [|split].
  - intro Hfuel. eexists. now rewrite prepare_chart_data_done.
  - now apply get_month_range_inverted.
  - intros Hfuel Hy Hm Hne. apply get_month_range_same_month; try assumption.
    pose proof (valid_date_bounds e He) as Hb.
    assert (~ (year e = 9999 /\ month e = 12)).
    { intros [H1 H2]. apply Hne. now rewrite H1, H2. }
    lia.
Qed.

Lemma inverted_range_results_witness :
  let s := mkdate 2024 6 20 in
  let e := mkdate 2024 5 10 in
  filtered_logs [sample_log 2024 5 15 "10.0.0.7" "Ivanov I.I."] s e = []
  /\ get_month_range 1 s e = Done [].
Proof.
  pose proof (inverted_range_results 1 [sample_log 2024 5 15 "10.0.0.7" "Ivanov I.I."]
                (mkdate 2024 6 20) (mkdate 2024 5 10) eq_refl eq_refl eq_refl) as H.
  cbv zeta in *. destruct H as [H1 [_ [_ [_ [H5 _]]]]].
  split; [exact H1 | apply H5; reflexivity].
Defined.

(** C8, as stated, fails: with both dates in one month the start can be
    after the end and the list of buckets still holds that month. *)
Lemma inverted_same_month_bucket :
  let s := mkdate 2024 5 20 in
  let e := mkdate 2024 5 10 in
  valid_date s = true /\ valid_date e = true /\ date_ltb e s = true
  /\ get_month_range 1 s e = Done [(2024, 5)]
  /\ get_month_range 1 s e <> Done [].
Proof. cbv zeta. repeat split; try reflexivity. discriminate. Qed.

Lemma field_cases : forall fields key,
  field fields key = unknown \/ In (lit key, field fields key) fields.
Proof.
  intros fields key. unfold field, Dict.get_default.
  case_get v G; [right | now left].
  eapply get_In; [exact str_eqb_eq | exact G].
Qed.

(** C4, as the code has it. A line fails to parse exactly when, once
    trimmed and freed of the markers (' and '), it has no " - " or the
    text before its first " - ", up to the first comma, is not read by
    [strptime] with the format %Y-%m-%d %H:%M:%S. Such a line is left
    out and nothing else changes: the batch gives the records of the
    other lines, each line that parses gives its record, and the records
    come in the order of their lines. *)
Theorem malformed_lines_skipped :
  forall {U : Interpreter} (before after : list str) (bad : str),
  contains (lit " - ") (clean_line bad) = false
  \/ strptime (timestamp_text (clean_line bad)) = None ->
  parse_log_entry bad = None
  /\ process_logs (before ++ bad :: after) = process_logs (before ++ after)
  /\ process_logs (before ++ after) = process_logs before ++ process_logs after
  /\ (forall line,
        parse_log_entry line = None
        <-> contains (lit " - ") (clean_line line) = false
            \/ strptime (timestamp_text (clean_line line)) = None)
  /\ (forall lines,
        process_logs lines
        = flat_map (fun line => match parse_log_entry line with
                                | Some e => [mklog e (dt_date (timestamp e))]
                                | None => []
                                end) lines).
Proof.
  intros U before after bad Hbad.
  assert (Hnone : parse_log_entry bad = None) by (now apply parse_log_entry_None).
  split; [exact Hnone|]. split; [|split; [|split]].
  - rewrite !process_logs_flat_map, !flat_map_app. simpl.
    unfold parsed_line at 2. now rewrite Hnone.
  - rewrite !process_logs_flat_map. apply flat_map_app.
  - apply parse_log_entry_None.
  - apply process_logs_flat_map.
Qed.

Lemma malformed_lines_skipped_witness :
  parse_log_entry (U:=sample_interpreter) (lit "no separator here") = None
  /\ process_logs (U:=sample_interpreter) ([example_line] ++ lit "no separator here" :: [example_line])
     = process_logs (U:=sample_interpreter) ([example_line] ++ [example_line]).
Proof.
  pose proof (@malformed_lines_skipped sample_interpreter [example_line] [example_line]
                (lit "no separator here") (or_introl eq_refl)) as [H1 [H2 _]].
  split; [exact H1 | exact H2].
Defined.

(** C4, as stated, fails: a raw line without " - " can gain one when the
    marker (' is removed, and then it parses. *)
Lemma marker_hides_separator :
  let line := lit "2024-01-15 09:00:00 ('- x" in
  contains (lit " - ") line = false
  /\ clean_line (U:=sample_interpreter) line = lit "2024-01-15 09:00:00 - x"
  /\ exists e, parse_log_entry (U:=sample_interpreter) line = Some e
               /\ timestamp e = mkdatetime (mkdate 2024 1 15) 9 0 0.
Proof.
  cbv zeta. split; [reflexivity|]. split; [reflexivity|].
  eexists. split; reflexivity.
Qed.

Lemma employee_rows_counts : forall f e emp items rows,
  employee_rows f e emp items = Some rows ->
  map row_count rows = map snd items /\ Forall (fun r => row_key r = emp) rows.
Proof.
  intros f e emp. induction items as [|[[y m] n] items IH]; intros rows H; simpl in H.
  - injection H as <-. split; constructor.
  - destruct (make_date y m 1) as [d|]; [|discriminate].
    destruct (employee_rows f e emp items) as [rest|]; [|discriminate].
    simpl in H. injection H as <-. destruct (IH rest eq_refl) as [H1 H2].
    split; [simpl; now rewrite H1 | now constructor].
Qed.

(** C1 on the employee side. Three visits of one employee in March and
    May 2022, shown over January 2022 to June 2024: the grouping is
    yearly and both months get the label 2022. The unit chart has one
    row for that label with the sum 3; the employee chart has two rows
    with that label, 2 and 1, which are not added up. *)
Theorem employee_rows_not_merged :
  let start_date := mkdate 2022 1 1 in
  let end_date := mkdate 2024 6 30 in
  exists parsed_logs,
    assign_departments_to_logs (U:=sample_interpreter) (process_logs (U:=sample_interpreter) three_visits)
                               get_departments
    = Some parsed_logs
    /\ let filtered := filtered_logs parsed_logs start_date end_date in
       let employees := employee_matrix (dept_logs filtered (lit "Управление 2")) in
       employees = [(lit "Ivanov I.I.", mkstats 3 [((2022, 3), 2); ((2022, 5), 1)])]
       /\ prepare_chart_data 1 filtered start_date end_date
          = Done ([mkrow (lit "Управление 2") (lit "2022") 3], Year)
       /\ prepare_employee_data 1 employees start_date end_date
          = Done ([mkrow (lit "Ivanov I.I.") (lit "2022") 2;
                   mkrow (lit "Ivanov I.I.") (lit "2022") 1], Year).
Proof.
  cbv zeta. eexists. split; [vm_compute; reflexivity|].
  split; [|split]; vm_compute; reflexivity.
Qed.

(* ================================================================== *)
(** * Further properties: the list of months                            *)
(* ================================================================== *)

Lemma shift_month_0 : forall y m, 1 <= m <= 12 -> shift_month y m 0 = (y, m).
Proof.
  intros y m Hm. unfold shift_month. rewrite Z.add_0_r.
  pose proof (Z.div_mod (y * 12 + m - 1) 12 ltac:(lia)).
  pose proof (Z.mod_pos_bound (y * 12 + m - 1) 12 ltac:(lia)).
  f_equal; lia.
Qed.

Lemma shift_month_lt : forall y m j k,
  j < k -> ym_lt (shift_month y m j) (shift_month y m k).
Proof.
  intros y m j k Hjk. unfold ym_lt.
  pose proof (shift_month_spec y m j) as [Hj1 Hj2].
  pose proof (shift_month_spec y m k) as [Hk1 Hk2]. lia.
Qed.

Lemma months_from_sorted : forall y m n, StronglySorted ym_lt (months_from y m n).
Proof.
  intros y m n. unfold months_from.
  assert (H : forall a, StronglySorted ym_lt
                (map (fun k => shift_month y m (Z.of_nat k)) (seq a n))).
  { induction n as [|n IH]; intro a; simpl; constructor; [apply IH|].
    apply Forall_forall. intros p Hp. apply in_map_iff in Hp as [k [<- Hk]].
    apply in_seq in Hk. apply shift_month_lt. lia. }
  apply H.
Qed.

(** [sorted(list(set(..)))] leaves a strictly increasing list as it is. *)
Lemma sorted_set_increasing : forall l, StronglySorted ym_lt l -> sorted_set l = l.
Proof.
  unfold sorted_set. induction l as [|x l IH]; intro H; [reflexivity|].
  inversion H as [|? ? Hl Hx]; subst. cbn [dedup].
  replace (existsb (ym_eqb x) l) with false.
  - cbn [fold_right]. rewrite (IH Hl). destruct l as [|y l]; [reflexivity|].
    cbn [insert_sorted]. inversion Hx as [|? ? Hxy _]; subst.
    replace (ym_leb x y) with true; [reflexivity|].
    symmetry. unfold ym_leb. unfold ym_lt in Hxy.
    bool_cases; simpl; try reflexivity; lia.
  - symmetry. apply not_true_is_false. intro He.
    apply existsb_exists in He as [y [Hy Heq]]. apply ym_eqb_eq in Heq. subst y.
    rewrite Forall_forall in Hx. specialize (Hx x Hy). unfold ym_lt in Hx. lia.
Qed.

(** One turn of the loop of [get_month_range] from the first day of the
    month [k] places after (y, m). *)
Lemma next_month_shift : forall y m k,
  1 <= fst (shift_month y m (k + 1)) <= 9999 ->
  next_month (mkdate (fst (shift_month y m k)) (snd (shift_month y m k)) 1)
  = Some (mkdate (fst (shift_month y m (k + 1))) (snd (shift_month y m (k + 1))) 1).
Proof.
  intros y m k Hy. unfold next_month. change (0, 1) with (set_months 1).
  pose proof (shift_month_spec y m k) as [Hk1 Hk2].
  pose proof (shift_month_spec y m (k + 1)) as [Hn1 Hn2].
  set (p := shift_month y m k) in *. set (q := shift_month y m (k + 1)) in *.
  rewrite (rd_add_set_months _ 1 (fst q) (snd q)) by (cbn [year month]; lia).
  cbn [day]. pose proof (days_in_month_bounds (fst q) (snd q)) as Hdim.
  pose proof (make_date_clipped (fst q) (snd q) 1) as Hc.
  rewrite Z.min_r in * by lia. apply Hc; lia.
Qed.

Lemma month_loop_enum : forall (r : nat) k fuel y m e acc,
  0 <= k -> 1 <= y -> 1 <= m <= 12 ->
  1 <= month e <= 12 ->
  y * 12 + m + k + Z.of_nat r = month_index e + 1 ->
  month_index e < 9999 * 12 + 12 ->
  (r <= fuel)%nat ->
  month_loop fuel (mkdate (fst (shift_month y m k)) (snd (shift_month y m k)) 1)
             (mkdate (year e) (month e) 1) acc
  = Done (acc ++ map (fun j => shift_month y m (k + Z.of_nat j)) (seq 0 r)).
Proof.
  unfold month_index.
  induction r as [|r IH]; intros k fuel y m e acc Hk Hy Hm Hme Hr Hlast Hfuel.
  - rewrite month_loop_stop; [now rewrite app_nil_r|].
    pose proof (shift_month_spec y m k) as [Hk1 Hk2].
    set (p := shift_month y m k) in *.
    unfold date_leb, date_ltb. cbn [year month day]. apply negb_false_iff.
    bool_cases; simpl; try reflexivity; lia.
  - destruct fuel as [|f]; [lia|].
    pose proof (shift_month_spec y m k) as [Hk1 Hk2].
    pose proof (shift_month_spec y m (k + 1)) as [Hn1 Hn2].
    cbn [month_loop].
    replace (date_leb _ (mkdate (year e) (month e) 1)) with true.
    2:{ symmetry. set (p := shift_month y m k) in *.
        unfold date_leb, date_ltb. cbn [year month day]. apply negb_true_iff.
        bool_cases; simpl; try reflexivity; lia. }
    rewrite next_month_shift by lia. cbn [year month].
    rewrite (IH (k + 1) f y m e) by lia.
    rewrite <- app_assoc. f_equal. cbn [seq map app].
    rewrite <- surjective_pairing, Z.add_0_r. f_equal.
    rewrite <- seq_shift, map_map. f_equal. apply map_ext. intro j. f_equal. lia.
Qed.

(** The months from the start date to the end date, all of them, in
    order, when the fuel covers them. *)
Lemma get_month_range_enum : forall fuel s e,
  valid_date s = true -> valid_date e = true ->
  month_index s <= month_index e -> month_index e < 9999 * 12 + 12 ->
  (Z.to_nat (month_index e - month_index s + 1) <= fuel)%nat ->
  get_month_range fuel s e
  = Done (months_from (year s) (month s) (Z.to_nat (month_index e - month_index s + 1))).
Proof.
  intros fuel s e Hs He Hle Hlast Hfuel. unfold get_month_range.
  rewrite (first_of_month s Hs), (first_of_month e He).
  apply valid_date_bounds in Hs, He.
  pose proof (month_loop_enum (Z.to_nat (month_index e - month_index s + 1)) 0 fuel
                (year s) (month s) e []) as H.
  rewrite shift_month_0 in H by lia. cbn [fst snd] in H.
  rewrite H; try lia; [|unfold month_index in *; lia].
  cbn [app]. unfold months_from at 1.
  erewrite map_ext; [|intro j; rewrite Z.add_0_l; reflexivity].
  fold (months_from (year s) (month s) (Z.to_nat (month_index e - month_index s + 1))).
  now rewrite sorted_set_increasing by apply months_from_sorted.
Qed.

Lemma shift_month_unique : forall y m k a b,
  1 <= b <= 12 -> a * 12 + b = y * 12 + m + k -> shift_month y m k = (a, b).
Proof.
  intros y m k a b Hb Hab. unfold shift_month.
  pose proof (Z.div_mod (y * 12 + m - 1 + k) 12 ltac:(lia)).
  pose proof (Z.mod_pos_bound (y * 12 + m - 1 + k) 12 ltac:(lia)).
  f_equal; lia.
Qed.

Lemma In_months_from : forall y m n p,
  In p (months_from y m n)
  <-> 1 <= snd p <= 12
      /\ y * 12 + m <= fst p * 12 + snd p < y * 12 + m + Z.of_nat n.
Proof.
  intros y m n p. unfold months_from. rewrite in_map_iff. split.
  - intros [k [<- Hk]]. apply in_seq in Hk.
    pose proof (shift_month_spec y m (Z.of_nat k)) as [H1 H2]. lia.
  - intros [Hb Hr]. exists (Z.to_nat (fst p * 12 + snd p - (y * 12 + m))). split.
    + rewrite (shift_month_unique y m _ (fst p) (snd p)) by lia.
      symmetry. apply surjective_pairing.
    + apply in_seq. lia.
Qed.

(** X1. For valid dates whose start month is not after the end month
    (the end before December 9999), [get_month_range] returns every month
    from the start month to the end month, once each and in increasing
    order, provided the fuel covers the number of months. *)
Theorem month_range_complete : forall (fuel : nat) (start end_ : date),
  valid_date start = true -> valid_date end_ = true ->
  month_index start <= month_index end_ ->
  month_index end_ < 9999 * 12 + 12 ->
  (Z.to_nat (month_index end_ - month_index start + 1) <= fuel)%nat ->
  exists months,
    get_month_range fuel start end_ = Done months
    /\ Z.of_nat (length months) = month_index end_ - month_index start + 1
    /\ StronglySorted ym_lt months
    /\ hd (0, 0) months = (year start, month start)
    /\ last months (0, 0) = (year end_, month end_)
    /\ (forall p, In p months
                  <-> 1 <= snd p <= 12
                      /\ month_index start <= fst p * 12 + snd p <= month_index end_).
Proof.
  intros fuel s e Hs He Hle Hlast Hfuel.
  set (n := Z.to_nat (month_index e - month_index s + 1)) in *.
  exists (months_from (year s) (month s) n).
  split; [now apply get_month_range_enum|].
  pose proof (valid_date_bounds s Hs) as Hbs.
  pose proof (valid_date_bounds e He) as Hbe.
  assert (Hn : n = S (Z.to_nat (month_index e - month_index s))) by (unfold n; lia).
  split; [unfold months_from; rewrite length_map, length_seq; lia|].
  split; [apply months_from_sorted|]. split; [|split].
  - rewrite Hn. unfold months_from. cbn [seq map hd].
    apply shift_month_0. lia.
  - rewrite Hn. unfold months_from. rewrite seq_S, map_app. cbn [map].
    rewrite last_last. apply shift_month_unique; [lia|].
    unfold month_index in *. lia.
  - intro p. rewrite In_months_from. unfold month_index in *. lia.
Qed.

Lemma month_range_complete_witness :
  exists months,
    get_month_range 4 (mkdate 2023 11 20) (mkdate 2024 2 10) = Done months
    /\ Z.of_nat (length months) = 4.
Proof.
  destruct (month_range_complete 4 (mkdate 2023 11 20) (mkdate 2024 2 10)
              eq_refl eq_refl ltac:(vm_compute; discriminate) eq_refl
              ltac:(vm_compute; lia))
    as [months [H1 [H2 _]]].
  exists months. split; [exact H1 | exact H2].
Defined.

Lemma month_loop_raise : forall (r : nat) k fuel y m acc,
  0 <= k -> 1 <= y -> 1 <= m <= 12 ->
  y * 12 + m + k + Z.of_nat r = 9999 * 12 + 12 ->
  (r < fuel)%nat ->
  month_loop fuel (mkdate (fst (shift_month y m k)) (snd (shift_month y m k)) 1)
             (mkdate 9999 12 1) acc
  = Raise.
Proof.
  induction r as [|r IH]; intros k fuel y m acc Hk Hy Hm Hr Hfuel.
  - destruct fuel as [|f]; [lia|].
    rewrite (shift_month_unique y m k 9999 12) by lia. reflexivity.
  - destruct fuel as [|f]; [lia|].
    pose proof (shift_month_spec y m k) as [Hk1 Hk2].
    pose proof (shift_month_spec y m (k + 1)) as [Hn1 Hn2].
    cbn [month_loop].
    replace (date_leb _ (mkdate 9999 12 1)) with true.
    2:{ symmetry. set (p := shift_month y m k) in *.
        unfold date_leb, date_ltb. cbn [year month day]. apply negb_true_iff.
        bool_cases; simpl; try reflexivity; lia. }
    rewrite next_month_shift by lia. cbn [year month].
    apply (IH (k + 1) f y m); lia.
Qed.

(** X2. When the end date lies in December 9999 and the start month is
    not after it, [get_month_range] raises: stepping past the last month
    leaves the range of years, whatever fuel is given beyond the months
    to enumerate. *)
Theorem month_range_raises_at_max_year : forall (fuel : nat) (start end_ : date),
  valid_date start = true -> valid_date end_ = true ->
  year end_ = 9999 -> month end_ = 12 ->
  month_index start <= month_index end_ ->
  (Z.to_nat (month_index end_ - month_index start) < fuel)%nat ->
  get_month_range fuel start end_ = Raise.
Proof.
  intros fuel s e Hs He Hy Hm Hle Hfuel. unfold get_month_range.
  rewrite (first_of_month s Hs), (first_of_month e He). rewrite Hy, Hm.
  apply valid_date_bounds in Hs, He. unfold month_index in *.
  pose proof (month_loop_raise (Z.to_nat (year e * 12 + month e - (year s * 12 + month s)))
                0 fuel (year s) (month s) []) as H.
  rewrite shift_month_0 in H by lia. cbn [fst snd] in H.
  rewrite H; [reflexivity | lia..].
Qed.

Lemma month_range_raises_at_max_year_witness :
  get_month_range 3 (mkdate 9999 11 5) (mkdate 9999 12 31) = Raise.
Proof.
  exact (month_range_raises_at_max_year 3 (mkdate 9999 11 5) (mkdate 9999 12 31)
           eq_refl eq_refl eq_refl eq_refl ltac:(vm_compute; discriminate)
           ltac:(vm_compute; lia)).
Defined.

(* ================================================================== *)
(** * Further properties: records, unit matrix and table                *)
(* ================================================================== *)

Lemma valid_datetime_date : forall t, valid_datetime t = true -> valid_date (dt_date t) = true.
Proof.
  intros t H. unfold valid_datetime in H.
  do 6 (apply andb_true_iff in H; destruct H as [H _]). exact H.
Qed.

Lemma parse_log_entry_valid : forall {U : Interpreter} line e,
  parse_log_entry line = Some e -> valid_datetime (timestamp e) = true.
Proof.
  intros U line e. unfold parse_log_entry.
  destruct (split1 (lit " - ") (clean_line line)) as [|tp [|dp [|? ?]]]; try discriminate.
  destruct (strptime (hd [] (split (lit ",") tp))) as [ts|] eqn:Et; [|discriminate].
  destruct (parse_fields dp) as [fields|]; [|discriminate].
  intro H. injection H as <-. cbn [timestamp]. eapply strptime_valid. exact Et.
Qed.

(** X3. Every record [process_logs] returns comes from a line of the
    batch that parses, carries the date of its own timestamp, and that
    timestamp is a real date and time; there is one record for each line
    that parses, so never more records than lines. *)
Theorem process_logs_records : forall {U : Interpreter} (raw_logs : list str),
  Forall (fun l => log_date l = dt_date (timestamp (log_entry l))
                   /\ valid_datetime (timestamp (log_entry l)) = true
                   /\ valid_date (log_date l) = true
                   /\ exists line, In line raw_logs
                                   /\ parse_log_entry line = Some (log_entry l))
         (process_logs raw_logs)
  /\ length (process_logs raw_logs)
     = length (filter (fun line => match parse_log_entry line with
                                   | Some _ => true
                                   | None => false
                                   end) raw_logs)
  /\ (length (process_logs raw_logs) <= length raw_logs)%nat.
Proof.
  intros U raw. rewrite process_logs_flat_map.
  assert (Hlen : length (flat_map parsed_line raw)
                 = length (filter (fun line => match parse_log_entry line with
                                               | Some _ => true
                                               | None => false
                                               end) raw)).
  { induction raw as [|line raw IH]; [reflexivity|]. cbn [flat_map filter].
    rewrite length_app, IH. unfold parsed_line.
    destruct (parse_log_entry line); reflexivity. }
  split; [|split; [exact Hlen|]].
  - apply Forall_forall. intros l Hl. apply in_flat_map in Hl as [line [Hline Hl]].
    unfold parsed_line in Hl. destruct (parse_log_entry line) as [e|] eqn:Ep; [|destruct Hl].
    destruct Hl as [<-|[]]. cbn [log_date log_entry].
    pose proof (parse_log_entry_valid line e Ep) as Hv.
    repeat split; [exact Hv | now apply valid_datetime_date |].
    exists line. now split.
  - rewrite Hlen. apply filter_length_le.
Qed.

Section CounterCells.
Variables (K : Type) (eqb : K -> K -> bool).
Hypothesis eqb_eq : forall a b, eqb a b = true <-> a = b.

Lemma get_default_incr : forall k k' (d : Dict.t K Z),
  Dict.get_default eqb k' 0 (Dict.incr eqb k d)
  = Dict.get_default eqb k' 0 d + (if eqb k k' then 1 else 0).
Proof.
  intros k k' d. unfold Dict.incr. destruct (eqb k k') eqn:E.
  - apply eqb_eq in E. subst k'. now rewrite get_default_set_same.
  - rewrite get_default_set_other; [lia | exact eqb_eq |].
    intro Heq. subst k'. rewrite (proj2 (eqb_eq k k) eq_refl) in E. discriminate.
Qed.

(** Distinct keys and positive counts survive [d[k] += 1]. *)
Lemma incr_positive : forall k (d : Dict.t K Z),
  NoDup (Dict.keys d) /\ Forall (fun n => 1 <= n) (Dict.values d) ->
  NoDup (Dict.keys (Dict.incr eqb k d))
  /\ Forall (fun n => 1 <= n) (Dict.values (Dict.incr eqb k d)).
Proof.
  intros k d [Hnd Hpos]. unfold Dict.incr. split.
  - apply NoDup_keys_set; [exact eqb_eq | exact Hnd].
  - apply Forall_values_set; [exact Hpos|].
    unfold Dict.get_default. case_get n G; [|lia].
    assert (1 <= n) by (eapply get_Forall_values; [exact Hpos | exact G]). lia.
Qed.

End CounterCells.

Lemma bump_months_ok : forall ym s, months_ok s -> months_ok (bump ym s).
Proof.
  intros ym s H. unfold months_ok, bump. cbn [months].
  apply incr_positive; [exact ym_eqb_eq | exact H].
Qed.

Lemma fold_count_log_months_ok : forall logs m,
  Forall months_ok (Dict.values m) ->
  Forall months_ok (Dict.values (fold_left count_log logs m)).
Proof.
  induction logs as [|l logs IH]; intros m H; simpl; [exact H|].
  apply IH. unfold count_log.
  destruct (Dict.get str_eqb (department l) m) as [s|] eqn:G; [|exact H].
  apply Forall_values_set; [exact H|]. apply bump_months_ok.
  eapply get_Forall_values; [exact H | exact G].
Qed.

(** A month cell of a unit counts the records of that unit and month. *)
Lemma fold_count_log_cells : forall logs m dept s0,
  Dict.get str_eqb dept m = Some s0 ->
  exists s, Dict.get str_eqb dept (fold_left count_log logs m) = Some s
    /\ forall ym, Dict.get_default ym_eqb ym 0 (months s)
                  = Dict.get_default ym_eqb ym 0 (months s0)
                    + count_if (fun l => in_dept dept l && in_month ym l) logs.
Proof.
  induction logs as [|l logs IH]; intros m dept s0 G; simpl fold_left.
  - exists s0. split; [exact G|]. intro ym. unfold count_if. simpl. lia.
  - destruct (str_eqb (department l) dept) eqn:E.
    + assert (E' := E). apply str_eqb_eq in E'.
      assert (G' : Dict.get str_eqb dept (count_log m l) = Some (bump (year_month l) s0)).
      { unfold count_log. rewrite E', G. apply get_set_same. exact str_eqb_eq. }
      destruct (IH _ _ _ G') as [s [Hs Hc]]. exists s. split; [exact Hs|].
      intro ym. rewrite Hc, count_if_cons. unfold in_dept at 2. rewrite E.
      unfold bump. cbn [months]. rewrite get_default_incr by exact ym_eqb_eq.
      unfold in_month at 2. simpl andb. lia.
    + assert (G' : Dict.get str_eqb dept (count_log m l) = Some s0).
      { unfold count_log.
        destruct (Dict.get str_eqb (department l) m) as [s1|]; [|exact G].
        rewrite get_set_other; [exact G | exact str_eqb_eq |].
        intro Heq. rewrite Heq, str_eqb_refl in E. discriminate. }
      destruct (IH _ _ _ G') as [s [Hs Hc]]. exists s. split; [exact Hs|].
      intro ym. rewrite Hc, count_if_cons. unfold in_dept at 2. rewrite E.
      simpl andb. cbv iota. lia.
Qed.

Lemma dept_matrix_row : forall filtered dept s,
  In (dept, s) (dept_matrix get_departments filtered) ->
  Dict.get str_eqb dept (empty_matrix get_departments) = Some (mkstats 0 [])
  /\ Dict.get str_eqb dept (dept_matrix get_departments filtered) = Some s.
Proof.
  intros filtered dept s Hin.
  pose proof (dept_matrix_keys filtered) as Hkeys.
  assert (Hd : In dept get_departments).
  { rewrite <- Hkeys. change dept with (fst (dept, s)). now apply in_map. }
  split.
  - apply In_get; [exact str_eqb_eq | exact NoDup_departments |].
    rewrite empty_matrix_departments. apply in_map_iff. now exists dept.
  - apply In_get; [exact str_eqb_eq | | exact Hin].
    rewrite Hkeys. exact NoDup_departments.
Qed.

(** X4. In the unit matrix every month cell is the number of filtered
    records of that unit in that month (0 for a month that is not a
    key); the months of a row are distinct and each of them has at
    least one record. *)
Theorem unit_matrix_cells : forall filtered : list alog,
  Forall (fun row =>
            NoDup (Dict.keys (months (snd row)))
            /\ Forall (fun n => 1 <= n) (Dict.values (months (snd row)))
            /\ forall ym,
                 Dict.get_default ym_eqb ym 0 (months (snd row))
                 = count_if (fun l => in_dept (fst row) l && in_month ym l) filtered)
         (dept_matrix get_departments filtered).
Proof.
  intro filtered. apply Forall_forall. intros [dept s] Hin. cbn [fst snd].
  destruct (dept_matrix_row filtered dept s Hin) as [G0 Gs].
  assert (Hok : Forall months_ok (Dict.values (dept_matrix get_departments filtered))).
  { unfold dept_matrix. apply fold_count_log_months_ok.
    rewrite empty_matrix_departments. repeat constructor. }
  pose proof (get_Forall_values _ _ str_eqb months_ok dept s _ Hok Gs) as [Hnd Hpos].
  split; [exact Hnd|]. split; [exact Hpos|].
  destruct (fold_count_log_cells filtered _ dept _ G0) as [s' [Gs' Hc]].
  unfold dept_matrix in Gs. rewrite Gs in Gs'. injection Gs' as <-.
  intro ym. rewrite Hc. simpl. lia.
Qed.

Lemma StronglySorted_NoDup : forall l, StronglySorted ym_lt l -> NoDup l.
Proof.
  induction l as [|x l IH]; intro H; constructor; inversion H as [|? ? Hl Hx]; subst.
  - intro Hin. rewrite Forall_forall in Hx. specialize (Hx x Hin).
    unfold ym_lt in Hx. lia.
  - now apply IH.
Qed.

Lemma sumZ_map_add : forall {A} (f g : A -> Z) l,
  sumZ (map (fun x => f x + g x) l) = sumZ (map f l) + sumZ (map g l).
Proof. intros A f g l. induction l as [|x l IH]; simpl; lia. Qed.

Lemma sumZ_map_zero : forall {A} (l : list A), sumZ (map (fun _ => 0) l) = 0.
Proof. intros A l. induction l as [|x l IH]; simpl; lia. Qed.

(** Over a list of distinct months, exactly one cell matches a month of
    the list and none matches a month outside it. *)
Lemma indicator_sum : forall k L,
  NoDup L ->
  sumZ (map (fun ym => if ym_eqb k ym then 1 else 0) L)
  = if existsb (ym_eqb k) L then 1 else 0.
Proof.
  intros k L. induction L as [|x L IH]; intro Hnd; [reflexivity|].
  inversion Hnd as [|? ? Hni Hnd']; subst. cbn [map sumZ fold_right existsb].
  fold (sumZ (map (fun ym => if ym_eqb k ym then 1 else 0) L)). rewrite (IH Hnd').
  destruct (ym_eqb k x) eqn:E; [|reflexivity].
  apply ym_eqb_eq in E. subst x. simpl orb.
  replace (existsb (ym_eqb k) L) with false; [reflexivity|].
  symmetry. apply not_true_is_false. intro He.
  apply existsb_exists in He as [y [Hy Heq]]. apply ym_eqb_eq in Heq. now subst y.
Qed.

(** Adding the cells of the listed months gives all the records, when
    every counted record falls in a listed month. *)
Lemma sum_over_months : forall (p : alog -> bool) L logs,
  NoDup L ->
  Forall (fun l => p l = true -> In (year_month l) L) logs ->
  sumZ (map (fun ym => count_if (fun l => p l && in_month ym l) logs) L)
  = count_if p logs.
Proof.
  intros p L logs Hnd. induction logs as [|l logs IH]; intro Hin.
  - unfold count_if. simpl. apply sumZ_map_zero.
  - inversion Hin as [|? ? Hl Hrest]; subst.
    erewrite map_ext; [|intro ym; apply count_if_cons].
    rewrite (sumZ_map_add (fun ym => if p l && in_month ym l then 1 else 0)).
    rewrite (IH Hrest), count_if_cons. f_equal.
    destruct (p l) eqn:Ep.
    + simpl andb. unfold in_month. rewrite indicator_sum by exact Hnd.
      replace (existsb (ym_eqb (year_month l)) L) with true; [reflexivity|].
      symmetry. apply existsb_exists. exists (year_month l).
      split; [now apply Hl | now apply ym_eqb_eq].
    + simpl andb. apply sumZ_map_zero.
Qed.

Lemma date_leb_index : forall a b,
  date_leb a b = true -> 1 <= month a <= 12 -> 1 <= month b <= 12 ->
  month_index a <= month_index b.
Proof.
  intros a b H Ha Hb. unfold date_leb, date_ltb in H. apply negb_true_iff in H.
  unfold month_index. bool_hyps; lia.
Qed.

Lemma process_logs_valid_dates : forall {U : Interpreter} raw,
  Forall (fun l => valid_date (log_date l) = true) (process_logs raw).
Proof.
  intros U raw. rewrite process_logs_flat_map. apply Forall_forall.
  intros l Hl. apply in_flat_map in Hl as [line [_ Hl]].
  unfold parsed_line in Hl. destruct (parse_log_entry line) as [e|] eqn:Ep; [|destruct Hl].
  destruct Hl as [<-|[]]. cbn [log_date].
  apply valid_datetime_date. eapply parse_log_entry_valid. exact Ep.
Qed.

(** Records in the window fall in the listed months. *)
Lemma filtered_in_months : forall parsed s e,
  valid_date s = true -> valid_date e = true ->
  Forall (fun l => valid_date (date_of l) = true) parsed ->
  Forall (fun l => In (year_month l)
                      (months_from (year s) (month s)
                         (Z.to_nat (month_index e - month_index s + 1))))
         (filtered_logs parsed s e).
Proof.
  intros parsed s e Hs He Hv. apply Forall_forall. intros l Hl.
  unfold filtered_logs in Hl. apply filter_In in Hl as [Hl Hr].
  apply andb_true_iff in Hr as [H1 H2].
  rewrite Forall_forall in Hv. specialize (Hv l Hl).
  apply valid_date_bounds in Hs, He, Hv.
  pose proof (date_leb_index _ _ H1 ltac:(lia) ltac:(lia)) as Hi1.
  pose proof (date_leb_index _ _ H2 ltac:(lia) ltac:(lia)) as Hi2.
  apply In_months_from. unfold year_month. cbn [fst snd].
  unfold month_index in *. lia.
Qed.

(** X5. In the table of units the month cells of every row add up to its
    total: for valid dates whose months are in order (the end before
    December 9999) and enough fuel, every filtered record falls in one of
    the displayed months, whatever the raw lines. *)
Theorem table_row_adds_up :
  forall {U : Interpreter} (raw_logs : list str) (fuel : nat) (start_date end_date : date),
  valid_date start_date = true -> valid_date end_date = true ->
  month_index start_date <= month_index end_date ->
  month_index end_date < 9999 * 12 + 12 ->
  (Z.to_nat (month_index end_date - month_index start_date + 1) <= fuel)%nat ->
  exists parsed_logs display_months,
    assign_departments_to_logs (process_logs raw_logs) get_departments = Some parsed_logs
    /\ get_month_range fuel start_date end_date = Done display_months
    /\ Forall (fun l => In (year_month l) display_months)
              (filtered_logs parsed_logs start_date end_date)
    /\ Forall (fun row => sumZ (table_cells (snd row) display_months) = total (snd row))
              (dept_matrix get_departments (filtered_logs parsed_logs start_date end_date)).
Proof.
  intros U raw fuel s e Hs He Hle Hlast Hfuel.
  destruct (assign_total (process_logs raw)) as [parsed [Ha [Hm _]]].
  set (display := months_from (year s) (month s)
                    (Z.to_nat (month_index e - month_index s + 1))).
  exists parsed, display. split; [exact Ha|].
  split; [now apply get_month_range_enum|].
  assert (Hv : Forall (fun l => valid_date (date_of l) = true) parsed).
  { pose proof (process_logs_valid_dates raw) as Hp. rewrite <- Hm in Hp.
    rewrite Forall_map in Hp. exact Hp. }
  pose proof (filtered_in_months parsed s e Hs He Hv) as Hin. fold display in Hin.
  split; [exact Hin|].
  apply Forall_forall. intros [dept st] Hrow. cbn [snd].
  destruct (dept_matrix_row _ dept st Hrow) as [G0 Gs].
  destruct (fold_count_log_cells (filtered_logs parsed s e) _ dept _ G0) as [s1 [G1 Hc]].
  destruct (fold_count_log_get (filtered_logs parsed s e) _ dept _ G0) as [s2 [G2 Ht]].
  unfold dept_matrix in Gs. rewrite Gs in G1, G2.
  injection G1 as <-. injection G2 as <-.
  rewrite Ht. unfold table_cells.
  erewrite map_ext; [|intro ym; rewrite Hc; simpl; rewrite Z.add_0_l; reflexivity].
  cbn [total]. rewrite Z.add_0_l. unfold in_dept at 2.
  change (fun l => str_eqb (department l) dept) with (in_dept dept).
  apply sum_over_months.
  - apply StronglySorted_NoDup. apply months_from_sorted.
  - eapply Forall_impl; [|exact Hin]. intros l H _. exact H.
Qed.

Lemma table_row_adds_up_witness :
  exists parsed_logs display_months,
    assign_departments_to_logs (U:=sample_interpreter)
      (process_logs (U:=sample_interpreter) three_visits) get_departments = Some parsed_logs
    /\ get_month_range 5 (mkdate 2022 2 1) (mkdate 2022 6 30) = Done display_months.
Proof.
  destruct (@table_row_adds_up sample_interpreter three_visits 5
              (mkdate 2022 2 1) (mkdate 2022 6 30) eq_refl eq_refl
              ltac:(vm_compute; discriminate) eq_refl ltac:(vm_compute; lia))
    as [parsed [display [H1 [H2 _]]]].
  exists parsed, display. split; [exact H1 | exact H2].
Defined.

(* ================================================================== *)
(** * Further properties: the employee matrix                           *)
(* ================================================================== *)

Section KeyFacts.
Variables (K V : Type) (eqb : K -> K -> bool).
Hypothesis eqb_eq : forall a b, eqb a b = true <-> a = b.

Lemma In_keys_set : forall k (v : V) d x,
  In x (Dict.keys (Dict.set eqb k v d)) <-> x = k \/ In x (Dict.keys d).
Proof.
  intros k v d x. destruct (Dict.get eqb k d) as [v0|] eqn:G.
  - rewrite (keys_set_present K V eqb k v v0 d G). split; [now right|].
    intros [->|H]; [|exact H].
    apply (get_In K V eqb eqb_eq) in G.
    change k with (fst (k, v0)). now apply in_map.
  - rewrite (keys_set_absent K V eqb k v d G). rewrite in_app_iff. simpl.
    split; [intros [H|[H|[]]]; auto | intros [H|H]; auto].
Qed.

Lemma get_default_get : forall k (v dflt : V) d,
  Dict.get eqb k d = Some v -> Dict.get_default eqb k dflt d = v.
Proof. intros k v dflt d H. unfold Dict.get_default. now rewrite H. Qed.

End KeyFacts.


Lemma sum_totals_set : forall k v (m : matrix),
  sum_totals (Dict.set str_eqb k v m)
  = sum_totals m - total (emp_row m k) + total v.
Proof.
  intros k v m. unfold sum_totals, emp_row, Dict.get_default.
  induction m as [|[k' s'] m IH]; simpl; [lia|].
  destruct (str_eqb k k'); simpl; [lia | rewrite IH; lia].
Qed.

Lemma emp_row_default : forall m name,
  Forall emp_row_ok (Dict.values m) ->
  row_ok (emp_row m name) /\ months_ok (emp_row m name) /\ 0 <= total (emp_row m name).
Proof.
  intros m name H. unfold emp_row, Dict.get_default. case_get s G.
  - pose proof (get_Forall_values _ _ str_eqb emp_row_ok name s m H G) as [H1 [H2 H3]].
    repeat split; try assumption; try apply H2. lia.
  - unfold zero_stats, row_ok, months_ok. simpl. repeat split; try constructor. lia.
Qed.

Lemma count_employee_named : forall m l,
  named l = false -> count_employee m l = m.
Proof.
  intros m l H. unfold count_employee. unfold named in H.
  apply negb_false_iff in H. now rewrite H.
Qed.

Lemma count_employee_set : forall m l,
  named l = true ->
  count_employee m l
  = Dict.set str_eqb (fullname_of l) (bump (year_month l) (emp_row m (fullname_of l))) m.
Proof.
  intros m l H. unfold count_employee. unfold named in H.
  apply negb_true_iff in H. now rewrite H.
Qed.

Lemma count_employee_ok : forall m l,
  NoDup (Dict.keys m) /\ ~ In unknown (Dict.keys m) /\ Forall emp_row_ok (Dict.values m) ->
  NoDup (Dict.keys (count_employee m l))
  /\ ~ In unknown (Dict.keys (count_employee m l))
  /\ Forall emp_row_ok (Dict.values (count_employee m l)).
Proof.
  intros m l [Hnd [Hun Hok]]. destruct (named l) eqn:En.
  - rewrite count_employee_set by exact En. split; [|split].
    + apply NoDup_keys_set; [exact str_eqb_eq | exact Hnd].
    + intro Hin. apply In_keys_set in Hin; [|exact str_eqb_eq].
      destruct Hin as [Heq|Hin]; [|contradiction].
      unfold named in En. rewrite <- Heq, str_eqb_refl in En. discriminate.
    + apply Forall_values_set; [exact Hok|].
      destruct (emp_row_default m (fullname_of l) Hok) as [H1 [H2 H3]].
      split; [now apply bump_row_ok|]. split; [now apply bump_months_ok|].
      unfold bump. cbn [total]. lia.
  - rewrite count_employee_named by exact En. now repeat split.
Qed.

Lemma fold_count_employee_ok : forall logs m,
  NoDup (Dict.keys m) /\ ~ In unknown (Dict.keys m) /\ Forall emp_row_ok (Dict.values m) ->
  NoDup (Dict.keys (fold_left count_employee logs m))
  /\ ~ In unknown (Dict.keys (fold_left count_employee logs m))
  /\ Forall emp_row_ok (Dict.values (fold_left count_employee logs m)).
Proof.
  induction logs as [|l logs IH]; intros m H; simpl; [exact H|].
  apply IH. now apply count_employee_ok.
Qed.

Lemma count_employee_row : forall m l name,
  emp_row (count_employee m l) name
  = if named l && has_name name l then bump (year_month l) (emp_row m name)
    else emp_row m name.
Proof.
  intros m l name. destruct (named l) eqn:En.
  - rewrite count_employee_set by exact En. unfold has_name. simpl andb.
    destruct (str_eqb (fullname_of l) name) eqn:E.
    + apply str_eqb_eq in E. subst name. unfold emp_row at 1.
      now rewrite get_default_set_same by exact str_eqb_eq.
    + unfold emp_row at 1. rewrite get_default_set_other; [reflexivity | exact str_eqb_eq |].
      intro Heq. rewrite Heq, str_eqb_refl in E. discriminate.
  - now rewrite count_employee_named by exact En.
Qed.

(** The row of an employee counts the named records with that name, in
    total and month by month. *)
Lemma fold_count_employee_row : forall logs m name,
  total (emp_row (fold_left count_employee logs m) name)
  = total (emp_row m name) + count_if (fun l => named l && has_name name l) logs
  /\ forall ym,
       Dict.get_default ym_eqb ym 0 (months (emp_row (fold_left count_employee logs m) name))
       = Dict.get_default ym_eqb ym 0 (months (emp_row m name))
         + count_if (fun l => named l && has_name name l && in_month ym l) logs.
Proof.
  induction logs as [|l logs IH]; intros m name; simpl fold_left.
  - split; [|intro ym]; unfold count_if; simpl; lia.
  - destruct (IH (count_employee m l) name) as [Ht Hc]. split.
    + rewrite Ht, count_employee_row, count_if_cons.
      destruct (named l && has_name name l); [unfold bump; cbn [total]|]; lia.
    + intro ym. rewrite Hc, count_employee_row, count_if_cons.
      destruct (named l && has_name name l); simpl andb; cbv iota; [|lia].
      unfold bump. cbn [months]. rewrite get_default_incr by exact ym_eqb_eq.
      unfold in_month. lia.
Qed.

Lemma fold_count_employee_keys : forall logs m x,
  In x (Dict.keys (fold_left count_employee logs m))
  <-> In x (Dict.keys m) \/ exists l, In l logs /\ named l = true /\ fullname_of l = x.
Proof.
  induction logs as [|l logs IH]; intros m x; simpl fold_left.
  - split; [now left | intros [H|[l [[] _]]]; exact H].
  - rewrite IH. destruct (named l) eqn:En.
    + rewrite count_employee_set by exact En.
      rewrite In_keys_set by exact str_eqb_eq. split.
      * intros [[->|H]|[l' [Hl' H']]]; [right; exists l; simpl; auto | now left |].
        right. exists l'. simpl. tauto.
      * intros [H|[l' [[<-|Hl'] [Hn Hf]]]]; [left; now right | left; now left |].
        right. now exists l'.
    + rewrite count_employee_named by exact En. split.
      * intros [H|[l' [Hl' H']]]; [now left|]. right. exists l'. simpl. tauto.
      * intros [H|[l' [[<-|Hl'] [Hn Hf]]]]; [now left | congruence |].
        right. now exists l'.
Qed.

Lemma fold_count_employee_sum : forall logs m,
  Forall emp_row_ok (Dict.values m) ->
  NoDup (Dict.keys m) -> ~ In unknown (Dict.keys m) ->
  sum_totals (fold_left count_employee logs m) = sum_totals m + count_if named logs.
Proof.
  induction logs as [|l logs IH]; intros m Hok Hnd Hun; simpl fold_left.
  - unfold count_if. simpl. lia.
  - destruct (count_employee_ok m l (conj Hnd (conj Hun Hok))) as [Hnd' [Hun' Hok']].
    rewrite (IH _ Hok' Hnd' Hun'), count_if_cons. destruct (named l) eqn:En.
    + rewrite count_employee_set by exact En. rewrite sum_totals_set.
      unfold bump. cbn [total]. lia.
    + rewrite count_employee_named by exact En. lia.
Qed.

Lemma named_has_name : forall name l,
  name <> unknown -> named l && has_name name l = has_name name l.
Proof.
  intros name l Hne. unfold named, has_name.
  destruct (str_eqb (fullname_of l) name) eqn:E; [|apply andb_false_r].
  apply str_eqb_eq in E. rewrite andb_true_r. apply negb_true_iff.
  apply not_true_is_false. intro H. apply str_eqb_eq in H. congruence.
Qed.

(** X6. The employee matrix has one row for each name other than
    "unknown" that occurs in the records of the unit, and no other row.
    A row's total is the number of records with that name, at least 1;
    its month cells count the records of that name month by month and
    add up to the total; the totals of all rows add up to the number of
    records with a known name. *)
Theorem employee_matrix_law : forall dept_logs : list alog,
  let m := employee_matrix dept_logs in
  NoDup (Dict.keys m)
  /\ (forall name, In name (Dict.keys m)
                   <-> name <> unknown
                       /\ exists l, In l dept_logs /\ fullname_of l = name)
  /\ Forall (fun row =>
               1 <= total (snd row)
               /\ total (snd row) = count_if (has_name (fst row)) dept_logs
               /\ sumZ (Dict.values (months (snd row))) = total (snd row)
               /\ forall ym,
                    Dict.get_default ym_eqb ym 0 (months (snd row))
                    = count_if (fun l => has_name (fst row) l && in_month ym l) dept_logs)
            m
  /\ sumZ (map total (Dict.values m)) = count_if named dept_logs.
Proof.
  intro logs. cbv zeta. unfold employee_matrix.
  assert (H0 : NoDup (Dict.keys (@nil (str * stats)))
               /\ ~ In unknown (Dict.keys (@nil (str * stats)))
               /\ Forall emp_row_ok (Dict.values (@nil (str * stats)))).
  { repeat split; try constructor. intros []. }
  destruct (fold_count_employee_ok logs [] H0) as [Hnd [Hun Hok]].
  split; [exact Hnd|]. split; [|split].
  - intro name. rewrite fold_count_employee_keys. split.
    + intros [[]|[l [Hl [Hn Hf]]]]. split; [|now exists l].
      intro Heq. unfold named in Hn. rewrite Hf, Heq, str_eqb_refl in Hn. discriminate.
    + intros [Hne [l [Hl Hf]]]. right. exists l. repeat split; try assumption.
      unfold named. apply negb_true_iff. apply not_true_is_false.
      intro H. apply str_eqb_eq in H. congruence.
  - apply Forall_forall. intros [name s] Hin. cbn [fst snd].
    assert (Hne : name <> unknown).
    { intro Heq. apply Hun. rewrite <- Heq. change name with (fst (name, s)).
      now apply in_map. }
    assert (G : Dict.get str_eqb name (fold_left count_employee logs []) = Some s).
    { apply In_get; [exact str_eqb_eq | exact Hnd | exact Hin]. }
    pose proof (get_Forall_values _ _ str_eqb emp_row_ok name s _ Hok G) as [Hr [_ Hpos]].
    destruct (fold_count_employee_row logs [] name) as [Ht Hc].
    unfold emp_row in Ht, Hc.
    rewrite (get_default_get _ _ str_eqb name s zero_stats _ G) in Ht, Hc.
    split; [exact Hpos|]. split; [|split; [exact Hr|]].
    + rewrite Ht. simpl. unfold count_if. f_equal. f_equal.
      apply filter_ext. intro l. now apply named_has_name.
    + intro ym. rewrite Hc. simpl. unfold count_if. f_equal. f_equal.
      apply filter_ext. intro l. now rewrite named_has_name.
  - pose proof (fold_count_employee_sum logs [] (proj2 (proj2 H0)) (proj1 H0)
                  (proj1 (proj2 H0))) as Hs.
    unfold sum_totals in Hs. rewrite Hs. simpl. lia.
Qed.

(* ================================================================== *)
(** * Further properties: the employee chart and table                  *)
(* ================================================================== *)

Lemma valid_ym_keys_incr : forall ym (d : Dict.t (Z * Z) Z),
  valid_ym ym -> Forall valid_ym (Dict.keys d) ->
  Forall valid_ym (Dict.keys (Dict.incr ym_eqb ym d)).
Proof.
  intros ym d Hym Hd. unfold Dict.incr. apply Forall_forall. intros x Hx.
  apply In_keys_set in Hx; [|exact ym_eqb_eq].
  destruct Hx as [->|Hx]; [exact Hym|]. rewrite Forall_forall in Hd. now apply Hd.
Qed.

Lemma year_month_valid : forall l,
  valid_date (date_of l) = true -> valid_ym (year_month l).
Proof.
  intros l H. apply valid_date_bounds in H. unfold valid_ym, year_month. simpl. lia.
Qed.

Lemma fold_count_employee_valid : forall logs m,
  Forall (fun l => valid_date (date_of l) = true) logs ->
  Forall (fun s => Forall valid_ym (Dict.keys (months s))) (Dict.values m) ->
  Forall (fun s => Forall valid_ym (Dict.keys (months s)))
         (Dict.values (fold_left count_employee logs m)).
Proof.
  induction logs as [|l logs IH]; intros m Hv Hm; simpl fold_left; [exact Hm|].
  inversion Hv as [|? ? Hl Hrest]; subst. apply IH; [exact Hrest|].
  destruct (named l) eqn:En.
  - rewrite count_employee_set by exact En.
    apply Forall_values_set; [exact Hm|]. unfold bump. cbn [months].
    apply valid_ym_keys_incr; [now apply year_month_valid|].
    unfold emp_row, Dict.get_default. case_get s G; [|constructor].
    eapply (get_Forall_values _ _ str_eqb
              (fun s => Forall valid_ym (Dict.keys (months s)))); [exact Hm | exact G].
  - now rewrite count_employee_named by exact En.
Qed.

(** The rows of one employee exist when every month key is a real month;
    they carry the counts of the month cells, one row per cell. *)
Lemma employee_rows_some : forall f e emp (items : Dict.t (Z * Z) Z),
  Forall valid_ym (Dict.keys items) ->
  exists rows, employee_rows f e emp items = Some rows
               /\ map row_count rows = Dict.values items
               /\ Forall (fun r => row_key r = emp) rows.
Proof.
  intros f e emp. induction items as [|[[y m] n] items IH]; intro Hv.
  - exists []. repeat split. constructor.
  - inversion Hv as [|? ? Hym Hrest]; subst. destruct (IH Hrest) as [rows [Hr [Hc Hk]]].
    unfold valid_ym in Hym. cbn [fst snd] in Hym.
    pose proof (days_in_month_bounds y m) as Hdim.
    pose proof (make_date_clipped y m 1 ltac:(lia) ltac:(lia) ltac:(lia)) as Hd.
    rewrite Z.min_r in Hd by lia.
    cbn [employee_rows]. rewrite Hd, Hr. cbn [option_map].
    eexists. split; [reflexivity|]. split.
    + cbn [map row_count]. unfold Dict.values in *. cbn [map snd]. now rewrite Hc.
    + constructor; [reflexivity | exact Hk].
Qed.

Lemma all_employee_rows_some : forall f e (m : matrix),
  Forall (fun s => Forall valid_ym (Dict.keys (months s))) (Dict.values m) ->
  exists rows, all_employee_rows f e m = Some rows
               /\ sumZ (map row_count rows)
                  = sumZ (map (fun s => sumZ (Dict.values (months s))) (Dict.values m))
               /\ Forall (fun r => In (row_key r) (Dict.keys m)) rows
               /\ (Forall months_ok (Dict.values m) ->
                   Forall (fun r => 1 <= row_count r) rows).
Proof.
  intros f e. induction m as [|[emp s] m IH]; intro Hv.
  - exists []. repeat split; constructor.
  - inversion Hv as [|? ? Hs Hrest]; subst.
    destruct (IH Hrest) as [rest [Hr [Hc [Hk Hp]]]].
    destruct (employee_rows_some f e emp (months s) Hs) as [rows [Hrows [Hcnt Hkey]]].
    cbn [all_employee_rows]. rewrite Hrows, Hr.
    eexists. split; [reflexivity|]. split; [|split].
    + rewrite map_app, sumZ_app, Hcnt, Hc. reflexivity.
    + apply Forall_app. split.
      * eapply Forall_impl; [|exact Hkey]. intros r Hrk. left. simpl. now symmetry.
      * eapply Forall_impl; [|exact Hk]. intros r Hrk. right. exact Hrk.
    + intro Hok. inversion Hok as [|? ? [_ Hpos] Hok']; subst.
      apply Forall_app. split; [|now apply Hp].
      rewrite <- Hcnt in Hpos. now rewrite Forall_map in Hpos.
Qed.

(** X7. On the employee matrix of records with valid dates,
    [prepare_employee_data] never raises: with fuel for one turn of the
    [relativedelta] loop it returns rows for employees of the matrix,
    each with a positive count, whose counts add up to the number of
    records with a known name; its grouping is the one
    [prepare_chart_data] chooses for the same dates. *)
Theorem employee_chart_total :
  forall (fuel : nat) (dept_logs : list alog) (start_date end_date : date),
  (1 <= fuel)%nat -> valid_date start_date = true -> valid_date end_date = true ->
  Forall (fun l => valid_date (date_of l) = true) dept_logs ->
  exists rows f,
    prepare_employee_data fuel (employee_matrix dept_logs) start_date end_date
    = Done (rows, f)
    /\ (exists unit_rows,
          prepare_chart_data fuel dept_logs start_date end_date = Done (unit_rows, f))
    /\ sumZ (map row_count rows) = count_if named dept_logs
    /\ Forall (fun r => 1 <= row_count r
                        /\ In (row_key r) (Dict.keys (employee_matrix dept_logs)))
              rows.
Proof.
  intros fuel logs s e Hf Hs He Hv.
  assert (H0 : NoDup (Dict.keys (@nil (str * stats)))
               /\ ~ In unknown (Dict.keys (@nil (str * stats)))
               /\ Forall emp_row_ok (Dict.values (@nil (str * stats)))).
  { repeat split; try constructor. intros []. }
  destruct (fold_count_employee_ok logs [] H0) as [Hnd [Hun Hok]].
  pose proof (fold_count_employee_valid logs [] Hv ltac:(constructor)) as Hvalid.
  fold (employee_matrix logs) in Hnd, Hun, Hok, Hvalid.
  destruct (all_employee_rows_some (freq_of (whole_months s e)) e _ Hvalid)
    as [rows [Hrows [Hsum [Hkeys Hpos]]]].
  exists rows, (freq_of (whole_months s e)).
  split; [|split; [|split]].
  - unfold prepare_employee_data. rewrite total_months_whole by assumption.
    now rewrite Hrows.
  - eexists. now apply prepare_chart_data_done.
  - rewrite Hsum.
    pose proof (fold_count_employee_sum logs [] (proj2 (proj2 H0)) (proj1 H0)
                  (proj1 (proj2 H0))) as Hs'.
    fold (employee_matrix logs) in Hs'. unfold sum_totals in Hs'.
    simpl in Hs'. rewrite <- Hs'. f_equal.
    apply map_ext_in. intros st Hst.
    rewrite Forall_forall in Hok. now destruct (Hok st Hst) as [Hr _].
  - assert (Hp : Forall (fun r => 1 <= row_count r) rows).
    { apply Hpos. eapply Forall_impl; [|exact Hok]. intros st [_ [Hm _]]. exact Hm. }
    rewrite Forall_forall in *. intros r Hr. split; [now apply Hp | now apply Hkeys].
Qed.

Lemma employee_chart_total_witness :
  exists rows f,
    prepare_employee_data 1
      (employee_matrix [sample_log 2024 1 15 "10.0.0.7" "Ivanov I.I."])
      (mkdate 2024 1 1) (mkdate 2024 3 31) = Done (rows, f)
    /\ sumZ (map row_count rows) = 1.
Proof.
  destruct (employee_chart_total 1 [sample_log 2024 1 15 "10.0.0.7" "Ivanov I.I."]
              (mkdate 2024 1 1) (mkdate 2024 3 31) (le_n 1) eq_refl eq_refl
              ltac:(repeat constructor))
    as [rows [f [H1 [_ [H3 _]]]]].
  exists rows, f. split; [exact H1 | exact H3].
Defined.

Lemma employee_matrix_row : forall logs name s,
  In (name, s) (employee_matrix logs) ->
  total s = count_if (fun l => named l && has_name name l) logs
  /\ forall ym, Dict.get_default ym_eqb ym 0 (months s)
                = count_if (fun l => named l && has_name name l && in_month ym l) logs.
Proof.
  intros logs name s Hin. unfold employee_matrix in *.
  assert (H0 : NoDup (Dict.keys (@nil (str * stats)))
               /\ ~ In unknown (Dict.keys (@nil (str * stats)))
               /\ Forall emp_row_ok (Dict.values (@nil (str * stats)))).
  { repeat split; try constructor. intros []. }
  destruct (fold_count_employee_ok logs [] H0) as [Hnd _].
  assert (G : Dict.get str_eqb name (fold_left count_employee logs []) = Some s).
  { apply In_get; [exact str_eqb_eq | exact Hnd | exact Hin]. }
  destruct (fold_count_employee_row logs [] name) as [Ht Hc].
  unfold emp_row in Ht, Hc.
  rewrite (get_default_get _ _ str_eqb name s zero_stats _ G) in Ht, Hc.
  split; [rewrite Ht; simpl; lia | intro ym; rewrite Hc; simpl; lia].
Qed.

(** X8. In the table of employees of any selected unit the month cells
    of every row add up to its total, under the conditions of the table
    of units: valid dates with months in order, the end before December
    9999, and enough fuel. *)
Theorem employee_table_row_adds_up :
  forall {U : Interpreter} (raw_logs : list str) (fuel : nat)
         (start_date end_date : date) (selected_dept : str),
  valid_date start_date = true -> valid_date end_date = true ->
  month_index start_date <= month_index end_date ->
  month_index end_date < 9999 * 12 + 12 ->
  (Z.to_nat (month_index end_date - month_index start_date + 1) <= fuel)%nat ->
  exists parsed_logs display_months,
    assign_departments_to_logs (process_logs raw_logs) get_departments = Some parsed_logs
    /\ get_month_range fuel start_date end_date = Done display_months
    /\ Forall (fun row => sumZ (table_cells (snd row) display_months) = total (snd row))
              (employee_matrix
                 (dept_logs (filtered_logs parsed_logs start_date end_date) selected_dept)).
Proof.
  intros U raw fuel s e sel Hs He Hle Hlast Hfuel.
  destruct (assign_total (process_logs raw)) as [parsed [Ha [Hm _]]].
  set (display := months_from (year s) (month s)
                    (Z.to_nat (month_index e - month_index s + 1))).
  exists parsed, display. split; [exact Ha|].
  split; [now apply get_month_range_enum|].
  assert (Hv : Forall (fun l => valid_date (date_of l) = true) parsed).
  { pose proof (process_logs_valid_dates raw) as Hp. rewrite <- Hm in Hp.
    rewrite Forall_map in Hp. exact Hp. }
  pose proof (filtered_in_months parsed s e Hs He Hv) as Hin. fold display in Hin.
  apply Forall_forall. intros [name st] Hrow. cbn [snd].
  destruct (employee_matrix_row _ name st Hrow) as [Ht Hc].
  rewrite Ht. unfold table_cells.
  erewrite map_ext; [|intro ym; apply Hc].
  apply (sum_over_months (fun l => named l && has_name name l)).
  - apply StronglySorted_NoDup. apply months_from_sorted.
  - apply Forall_forall. intros l Hl _. unfold dept_logs in Hl.
    apply filter_In in Hl as [Hl _]. rewrite Forall_forall in Hin. now apply Hin.
Qed.

Lemma employee_table_row_adds_up_witness :
  exists parsed_logs display_months,
    assign_departments_to_logs (U:=sample_interpreter)
      (process_logs (U:=sample_interpreter) three_visits) get_departments = Some parsed_logs
    /\ get_month_range 5 (mkdate 2022 2 1) (mkdate 2022 6 30) = Done display_months.
Proof.
  destruct (@employee_table_row_adds_up sample_interpreter three_visits 5
              (mkdate 2022 2 1) (mkdate 2022 6 30) (lit "Управление 2") eq_refl eq_refl
              ltac:(vm_compute; discriminate) eq_refl ltac:(vm_compute; lia))
    as [parsed [display [H1 [H2 _]]]].
  exists parsed, display. split; [exact H1 | exact H2].
Defined.

(** X9. Chart and table agree: for every unit, the counts of its rows in
    the chart data add up to its total in the unit matrix, in monthly
    and in yearly grouping alike, and no label occurs twice among the
    rows of one unit. *)
Theorem chart_matches_table :
  forall (fuel : nat) (filtered : list alog) (start_date end_date : date),
  (1 <= fuel)%nat -> valid_date start_date = true -> valid_date end_date = true ->
  exists rows f,
    prepare_chart_data fuel filtered start_date end_date = Done (rows, f)
    /\ Forall (fun row =>
                 let unit_rows := filter (fun r => str_eqb (row_key r) (fst row)) rows in
                 sumZ (map row_count unit_rows) = total (snd row)
                 /\ NoDup (map row_period unit_rows))
              (dept_matrix get_departments filtered).
Proof.
  intros fuel filtered s e Hf Hs He.
  exists (chart_data (freq_of (whole_months s e)) e filtered), (freq_of (whole_months s e)).
  split; [now apply prepare_chart_data_done|].
  apply Forall_forall. intros [dept st] Hrow. cbn [fst snd]. cbv zeta.
  destruct (dept_matrix_row _ dept st Hrow) as [G0 Gs].
  destruct (fold_count_log_get filtered _ dept _ G0) as [s2 [G2 Ht]].
  unfold dept_matrix in Gs. rewrite Gs in G2. injection G2 as <-.
  assert (Hd : In dept get_departments).
  { rewrite <- (dept_matrix_keys filtered). change dept with (fst (dept, st)).
    now apply in_map. }
  destruct (chart_data_labels (freq_of (whole_months s e)) e filtered dept Hd) as [Hnd Hsum].
  split; [|exact Hnd]. rewrite Hsum, Ht. simpl. lia.
Qed.

Lemma chart_matches_table_witness :
  exists rows f,
    prepare_chart_data 1 [sample_log 2024 1 15 "10.0.0.7" "Ivanov I.I."]
                       (mkdate 2022 1 1) (mkdate 2024 3 31) = Done (rows, f).
Proof.
  destruct (chart_matches_table 1 [sample_log 2024 1 15 "10.0.0.7" "Ivanov I.I."]
              (mkdate 2022 1 1) (mkdate 2024 3 31) (le_n 1) eq_refl eq_refl)
    as [rows [f [H1 _]]].
  exists rows, f. exact H1.
Defined.

(* ================================================================== *)
(** * Further properties: granularity and windows                       *)
(* ================================================================== *)

(** X10. The grouping follows the calendar months between the dates:
    the span [relativedelta] finds is the difference of the month
    numbers, or one less in absolute value when the days fall short, and
    it has the sign of the range. So a range of at most 12 calendar
    months, and every inverted range, is grouped by month, and a range
    of 14 calendar months or more by year. *)
Theorem granularity_by_calendar_months :
  forall (fuel : nat) (start_date end_date : date),
  (1 <= fuel)%nat -> valid_date start_date = true -> valid_date end_date = true ->
  let m0 := month_index end_date - month_index start_date in
  exists span,
    total_months fuel start_date end_date = Done span
    /\ (date_leb start_date end_date = true -> 0 <= span /\ m0 - 1 <= span <= m0)
    /\ (date_ltb end_date start_date = true -> span <= 0 /\ m0 <= span <= m0 + 1)
    /\ (m0 <= 12 -> freq_of span = Month)
    /\ (date_ltb end_date start_date = true -> freq_of span = Month)
    /\ (14 <= m0 -> freq_of span = Year).
Proof.
  intros fuel s e Hf Hs He m0. exists (whole_months s e).
  split; [now apply total_months_whole|].
  apply valid_date_bounds in Hs, He.
  pose proof (days_in_month_bounds (year e) (month e)) as Hdim.
  assert (Hfwd : date_ltb e s = false -> 0 <= whole_months s e /\ m0 - 1 <= whole_months s e <= m0).
  { intro H. unfold whole_months. rewrite H. unfold date_ltb in H.
    unfold m0, month_index. bool_hyps; bool_cases; lia. }
  assert (Hinv : date_ltb e s = true -> whole_months s e <= 0 /\ m0 <= whole_months s e <= m0 + 1).
  { intro H. unfold whole_months. rewrite H. unfold date_ltb in H.
    unfold m0, month_index. bool_hyps; bool_cases; lia. }
  split; [|split; [|split; [|split]]].
  - intro H. apply Hfwd. unfold date_leb in H. now apply negb_true_iff in H.
  - exact Hinv.
  - intro Hm. unfold freq_of. destruct (date_ltb e s) eqn:E.
    + destruct (Hinv eq_refl). bool_cases; [reflexivity | lia].
    + destruct (Hfwd eq_refl). bool_cases; [reflexivity | lia].
  - intro H. unfold freq_of. destruct (Hinv H). bool_cases; [reflexivity | lia].
  - intro Hm. unfold freq_of. destruct (date_ltb e s) eqn:E.
    + exfalso. unfold date_ltb in E. unfold m0, month_index in Hm. bool_hyps; lia.
    + destruct (Hfwd eq_refl). bool_cases; [lia | reflexivity].
Qed.

Lemma granularity_by_calendar_months_witness :
  exists span, total_months 1 (mkdate 2024 1 31) (mkdate 2025 2 1) = Done span.
Proof.
  destruct (granularity_by_calendar_months 1 (mkdate 2024 1 31) (mkdate 2025 2 1)
              (le_n 1) eq_refl eq_refl) as [span [H _]].
  exists span. exact H.
Defined.

Lemma make_date_Some : forall y m d r, make_date y m d = Some r -> r = mkdate y m d /\ valid_date r = true.
Proof.
  intros y m d r. unfold make_date.
  destruct (valid_date (mkdate y m d)) eqn:E; [|discriminate].
  intro H. injection H as <-. now split.
Qed.

(** X11. The default window of [main], from three months before today
    to today: when today is a valid date from April of year 1 on and
    before December 9999, the start is a valid date not after today, the
    span is exactly 3 months, so the grouping is monthly, and the table
    shows exactly four months, ending with the current one. *)
Theorem default_window : forall (fuel : nat) (today : date),
  valid_date today = true ->
  16 <= month_index today -> month_index today < 9999 * 12 + 12 ->
  (4 <= fuel)%nat ->
  exists start months,
    default_start today = Some start
    /\ valid_date start = true
    /\ date_leb start today = true
    /\ total_months fuel start today = Done 3
    /\ freq_of 3 = Month
    /\ get_month_range fuel start today = Done months
    /\ length months = 4%nat
    /\ last months (0, 0) = (year today, month today).
Proof.
  intros fuel today Ht Hlo Hhi Hfuel.
  pose proof (valid_date_bounds today Ht) as Hb. unfold month_index in *.
  pose proof (shift_month_spec (year today) (month today) (-3)) as [Hm1 Hy1].
  set (y1 := fst (shift_month (year today) (month today) (-3))) in *.
  set (m1 := snd (shift_month (year today) (month today) (-3))) in *.
  pose proof (days_in_month_bounds y1 m1) as Hdim1.
  pose proof (days_in_month_bounds (year today) (month today)) as Hdim.
  set (start := mkdate y1 m1 (Z.min (days_in_month y1 m1) (day today))).
  assert (Hstart : default_start today = Some start).
  { unfold default_start. change (0, -3) with (set_months (-3)).
    rewrite (rd_add_set_months today (-3) y1 m1) by lia.
    apply make_date_clipped; lia. }
  assert (Hv : valid_date start = true).
  { unfold default_start in Hstart. change (0, -3) with (set_months (-3)) in Hstart.
    rewrite (rd_add_set_months today (-3) y1 m1) in Hstart by lia.
    now apply make_date_Some in Hstart as [_ Hv]. }
  assert (Hidx : month_index today - month_index start + 1 = 4).
  { unfold month_index, start. cbn [year month]. lia. }
  exists start, (months_from y1 m1 4). split; [exact Hstart|]. split; [exact Hv|].
  split; [|split; [|split; [reflexivity|split; [|split]]]].
  - unfold date_leb, date_ltb, start. cbn [year month day]. apply negb_true_iff.
    bool_cases; simpl; try reflexivity; lia.
  - rewrite total_months_whole by (assumption || lia). f_equal.
    unfold whole_months.
    replace (date_ltb today start) with false.
    2:{ symmetry. unfold date_ltb, start. cbn [year month day].
        bool_cases; simpl; try reflexivity; lia. }
    unfold start. cbn [year month day]. bool_cases; lia.
  - pose proof (get_month_range_enum fuel start today Hv Ht) as He.
    rewrite Hidx in He. apply He; unfold month_index in *; lia.
  - reflexivity.
  - change (months_from y1 m1 4) with (map (fun k => shift_month y1 m1 (Z.of_nat k)) [0;1;2;3]%nat).
    cbn [map last]. apply shift_month_unique; lia.
Qed.

Lemma default_window_witness :
  exists start months,
    default_start (mkdate 2024 5 31) = Some start
    /\ get_month_range 4 start (mkdate 2024 5 31) = Done months
    /\ length months = 4%nat.
Proof.
  destruct (default_window 4 (mkdate 2024 5 31) eq_refl
              ltac:(vm_compute; discriminate) eq_refl (le_n 4))
    as [start [months [H1 [_ [_ [_ [_ [H6 [H7 _]]]]]]]]].
  exists start, months. repeat split; assumption.
Defined.

Lemma date_leb_antisym : forall a b,
  date_leb a b = true -> date_leb b a = true -> a = b.
Proof.
  intros [ya ma da] [yb mb db]. unfold date_leb, date_ltb. cbn [year month day].
  intros H1 H2. apply negb_true_iff in H1, H2.
  assert (ya = yb /\ ma = mb /\ da = db) as [-> [-> ->]]; [|reflexivity].
  bool_hyps; lia.
Qed.

Lemma date_leb_refl : forall a, date_leb a a = true.
Proof.
  intro a. unfold date_leb, date_ltb. apply negb_true_iff.
  bool_cases; simpl; try reflexivity; lia.
Qed.

(** X12. A window of one day: with the start equal to the end (a valid
    date before December 9999) the list of months is that single month,
    the span is 0 months, and the filter keeps exactly the records of
    that day, both bounds being inclusive. *)
Theorem single_day_window : forall (fuel : nat) (parsed_logs : list alog) (d : date),
  (1 <= fuel)%nat -> valid_date d = true -> month_index d < 9999 * 12 + 12 ->
  get_month_range fuel d d = Done [(year d, month d)]
  /\ total_months fuel d d = Done 0
  /\ (forall l, In l (filtered_logs parsed_logs d d) <-> In l parsed_logs /\ date_of l = d).
Proof.
  intros fuel parsed d Hf Hd Hlast. split; [|split].
  - apply get_month_range_same_month; try assumption; reflexivity.
  - rewrite total_months_whole by assumption. f_equal. unfold whole_months.
    replace (date_ltb d d) with false.
    2:{ symmetry. pose proof (date_leb_refl d) as H. unfold date_leb in H.
        now apply negb_true_iff in H. }
    apply valid_date_bounds in Hd. bool_cases; lia.
  - intro l. unfold filtered_logs. rewrite filter_In, andb_true_iff. split.
    + intros [Hl [H1 H2]]. split; [exact Hl|]. now apply date_leb_antisym.
    + intros [Hl <-]. split; [exact Hl|]. split; apply date_leb_refl.
Qed.

Lemma single_day_window_witness :
  get_month_range 1 (mkdate 2024 5 10) (mkdate 2024 5 10) = Done [(2024, 5)].
Proof.
  exact (proj1 (single_day_window 1 [] (mkdate 2024 5 10) (le_n 1) eq_refl eq_refl)).
Defined.

(* ================================================================== *)
(** * Further properties: fields of a line                              *)
(* ================================================================== *)

Lemma lstrip_by_head : forall p s,
  match lstrip_by p s with [] => True | c :: _ => p c = false end.
Proof.
  intros p s. induction s as [|c s IH]; simpl; [exact I|].
  destruct (p c) eqn:E; [exact IH | exact E].
Qed.

Lemma lstrip_by_suffix : forall p s, exists pre, s = pre ++ lstrip_by p s.
Proof.
  intros p s. induction s as [|c s [pre IH]]; simpl.
  - now exists [].
  - destruct (p c); [exists (c :: pre); simpl; now f_equal | now exists []].
Qed.

(** What [strip] returns neither begins nor ends with a stripped character. *)
Lemma strip_by_clean : forall p s, clean_ends p (strip_by p s).
Proof.
  intros p s. unfold strip_by.
  set (t := lstrip_by p s).
  pose proof (lstrip_by_head p s) as Ht. fold t in Ht.
  pose proof (lstrip_by_head p (rev t)) as Hu.
  destruct (lstrip_by_suffix p (rev t)) as [pre Hpre].
  set (u := lstrip_by p (rev t)) in *.
  destruct u as [|c0 u'] eqn:Eu; [exact I|].
  assert (Et : t = rev (c0 :: u') ++ rev pre).
  { rewrite <- rev_app_distr, <- Hpre. now rewrite rev_involutive. }
  unfold clean_ends.
  destruct (rev (c0 :: u')) as [|c r] eqn:Er.
  { apply (f_equal (@length _)) in Er. rewrite length_rev in Er. discriminate. }
  split.
  - rewrite Et in Ht. exact Ht.
  - rewrite <- Er. simpl rev. rewrite last_last. exact Hu.
Qed.

Section FieldFacts.
Context {U : Interpreter}.

Lemma add_field_item : forall f item,
  add_field (Some f) item = Some (apply_item f item).
Proof.
  intros f item. unfold add_field, apply_item, item_kv.
  destruct (contains (lit ":") item) eqn:E; [|reflexivity].
  destruct (split1_go_present (lit ":") item [] ltac:(discriminate) E) as [a [b Hab]].
  unfold split1. now rewrite Hab.
Qed.

Lemma parse_fields_fold : forall data_part,
  parse_fields data_part = Some (fold_left apply_item (split (lit ", '") data_part) []).
Proof.
  intro data_part. unfold parse_fields.
  generalize (split (lit ", '") data_part). intro items.
  assert (H : forall f, fold_left add_field items (Some f)
                        = Some (fold_left apply_item items f)).
  { induction items as [|it items IH]; intro f; [reflexivity|].
    cbn [fold_left]. rewrite add_field_item. apply IH. }
  apply H.
Qed.

Lemma apply_item_keys : forall f item x,
  In x (Dict.keys (apply_item f item)) <-> In x (Dict.keys f) \/ item_key item = Some x.
Proof.
  intros f item x. unfold apply_item, item_key.
  destruct (item_kv item) as [[k v]|]; cbn [option_map fst].
  - rewrite In_keys_set by exact str_eqb_eq. split.
    + intros [->|H]; [now right | now left].
    + intros [H|H]; [now right | left; congruence].
  - split; [now left | intros [H|H]; [exact H | discriminate]].
Qed.

Lemma fold_apply_item_keys : forall items f x,
  In x (Dict.keys (fold_left apply_item items f))
  <-> In x (Dict.keys f) \/ exists item, In item items /\ item_key item = Some x.
Proof.
  induction items as [|it items IH]; intros f x; cbn [fold_left].
  - split; [now left | intros [H|[item [[] _]]]; exact H].
  - rewrite IH, apply_item_keys. split.
    + intros [[H|H]|[item [Hi Hk]]]; [now left | right; exists it; simpl; auto |].
      right. exists item. simpl. auto.
    + intros [H|[item [[<-|Hi] Hk]]]; [left; now left | left; now right |].
      right. now exists item.
Qed.

Lemma fold_apply_item_other : forall items f key,
  (forall item, In item items -> item_key item <> Some key) ->
  Dict.get str_eqb key (fold_left apply_item items f) = Dict.get str_eqb key f.
Proof.
  induction items as [|it items IH]; intros f key H; cbn [fold_left]; [reflexivity|].
  rewrite IH by (intros item Hi; apply H; now right).
  specialize (H it (or_introl eq_refl)). unfold apply_item, item_key in *.
  destruct (item_kv it) as [[k v]|]; [|reflexivity]. cbn [option_map fst] in H.
  apply get_set_other; [exact str_eqb_eq | congruence].
Qed.

(** X13. A field name in the mapping built from a line never begins or
    ends with a space or a quote, and a field value never begins or ends
    with a quote: both are trimmed before they are stored. *)
Theorem fields_are_trimmed : forall (data_part : str) (fields : Dict.t str str),
  parse_fields data_part = Some fields ->
  Forall (fun kv =>
            clean_ends (fun c => existsb (N.eqb c) (lit " '")) (fst kv)
            /\ clean_ends (fun c => existsb (N.eqb c) (lit "'")) (snd kv))
         fields.
Proof.
  intros data_part fields H. apply parse_fields_extracted in H.
  eapply Forall_impl; [|exact H].
  intros kv [item [key [value [_ [_ [Hk Hv]]]]]]. rewrite Hk, Hv.
  split; apply strip_by_clean.
Qed.

(** X14. How a key is looked up in a line: the mapping has no entry for
    a key exactly when no chunk of the data part carries that key, which
    is when the record gets "unknown"; when several chunks carry the
    key, the value of the last one is kept. *)
Theorem field_lookup : forall (data_part : str) (fields : Dict.t str str) (key : str),
  parse_fields data_part = Some fields ->
  let items := split (lit ", '") data_part in
  (Dict.get str_eqb key fields = None
   <-> forall item, In item items -> item_key item <> Some key)
  /\ (Dict.get str_eqb key fields = None ->
      Dict.get_default str_eqb key unknown fields = unknown)
  /\ (forall before item after value,
        items = before ++ item :: after ->
        item_kv item = Some (key, value) ->
        (forall later, In later after -> item_key later <> Some key) ->
        Dict.get str_eqb key fields = Some value).
Proof.
  intros data_part fields key H items. rewrite parse_fields_fold in H.
  injection H as <-. fold items. split; [|split].
  - rewrite (get_None_keys _ _ str_eqb str_eqb_eq), fold_apply_item_keys. split.
    + intros Hn item Hi Hk. apply Hn. right. now exists item.
    + intros Hn [[]|[item [Hi Hk]]]. now apply (Hn item).
  - intro Hn. unfold Dict.get_default. now rewrite Hn.
  - intros before item after value Hitems Hkv Hafter. rewrite Hitems.
    rewrite fold_left_app. cbn [fold_left].
    rewrite fold_apply_item_other by exact Hafter.
    unfold apply_item. rewrite Hkv. apply get_set_same. exact str_eqb_eq.
Qed.

End FieldFacts.

(** Among the chunks of a data part either none carries a given key, or
    there is a last one that does. *)
Lemma last_chunk_of_key : forall {U : Interpreter} (items : list str) (key : str),
  (forall item, In item items -> item_key item <> Some key)
  \/ (exists before item after value,
        items = before ++ item :: after
        /\ item_kv item = Some (key, value)
        /\ forall later, In later after -> item_key later <> Some key).
Proof.
  intros U items key. induction items as [|it items [IH|IH]].
  - left. intros item [].
  - destruct (item_kv it) as [[k v]|] eqn:E.
    + destruct (str_eqb k key) eqn:Ek.
      * apply str_eqb_eq in Ek. subst k. right. exists [], it, items, v.
        split; [reflexivity|]. split; [exact E | exact IH].
      * left. intros item [<-|Hi]; [|now apply IH].
        unfold item_key. rewrite E. cbn [option_map fst]. intro H. injection H as H.
        subst k. rewrite str_eqb_refl in Ek. discriminate.
    + left. intros item [<-|Hi]; [|now apply IH].
      unfold item_key. rewrite E. discriminate.
  - destruct IH as [before [item [after [value [Hi [Hkv Hafter]]]]]].
    right. exists (it :: before), item, after, value.
    split; [simpl; now rewrite Hi|]. split; [exact Hkv | exact Hafter].
Qed.

(** What [fields.get(key, 'unknown')] returns, in terms of the chunks. *)
Lemma field_unknown : forall {U : Interpreter} (data_part : str) fields (key : str),
  parse_fields data_part = Some fields ->
  (forall item, In item (split (lit ", '") data_part) -> item_key item <> Some key) ->
  Dict.get_default str_eqb key unknown fields = unknown.
Proof.
  intros U data_part fields key H Hnone. rewrite parse_fields_fold in H.
  injection H as <-. unfold Dict.get_default.
  rewrite fold_apply_item_other by exact Hnone. reflexivity.
Qed.

Lemma field_last_chunk : forall {U : Interpreter} (data_part : str) fields (key : str)
                                before item after value,
  parse_fields data_part = Some fields ->
  split (lit ", '") data_part = before ++ item :: after ->
  item_kv item = Some (key, value) ->
  (forall later, In later after -> item_key later <> Some key) ->
  Dict.get_default str_eqb key unknown fields = value.
Proof.
  intros U data_part fields key before item after value H Hitems Hkv Hafter.
  rewrite parse_fields_fold in H. injection H as <-. unfold Dict.get_default.
  rewrite Hitems, fold_left_app. cbn [fold_left].
  rewrite fold_apply_item_other by exact Hafter.
  unfold apply_item. rewrite Hkv.
  rewrite (get_set_same _ _ str_eqb str_eqb_eq). reflexivity.
Qed.

Lemma field_of_chunks : forall {U : Interpreter} (data_part : str) fields (key : str),
  parse_fields data_part = Some fields ->
  let items := split (lit ", '") data_part in
  let value := Dict.get_default str_eqb key unknown fields in
  ((forall item, In item items -> item_key item <> Some key) -> value = unknown)
  /\ (forall before item after v,
        items = before ++ item :: after ->
        item_kv item = Some (key, v) ->
        (forall later, In later after -> item_key later <> Some key) ->
        value = v)
  /\ (((forall item, In item items -> item_key item <> Some key) /\ value = unknown)
      \/ (exists before item after,
            items = before ++ item :: after
            /\ item_kv item = Some (key, value)
            /\ forall later, In later after -> item_key later <> Some key)).
Proof.
  intros U data_part fields key H items value. split; [|split].
  - intro Hnone. eapply field_unknown; [exact H | exact Hnone].
  - intros before item after v Hitems Hkv Hafter.
    eapply field_last_chunk; [exact H | exact Hitems | exact Hkv | exact Hafter].
  - destruct (last_chunk_of_key items key)
      as [Hnone | [before [item [after [v [Hitems [Hkv Hafter]]]]]]].
    + left. split; [exact Hnone|]. eapply field_unknown; [exact H | exact Hnone].
    + right. exists before, item, after. split; [exact Hitems|]. split; [|exact Hafter].
      rewrite Hkv. do 2 f_equal. symmetry.
      eapply field_last_chunk; [exact H | exact Hitems | exact Hkv | exact Hafter].
Qed.

(** C6. When [parse_log_entry] succeeds, the record it returns is whole,
    with its nine entries: the timestamp, a valid date and time read from
    the text before the separator, and eight string fields. The data
    part is cut into chunks at [, ']; a chunk with a colon carries a key,
    the text before its first colon without spaces and quotes at the
    ends, and a value, the text after it, trimmed and without quotes at
    the ends. Each field holds the value of the last chunk that carries
    its key, and "unknown" exactly when no chunk carries it. Every value
    of the field mapping is cut out of a chunk of the line. *)
Theorem parse_returns_full_record : forall {U : Interpreter} (line : str) (e : entry),
  parse_log_entry line = Some e ->
  valid_datetime (timestamp e) = true
  /\ length (string_fields e) = length recognized_keys
  /\ S (length (string_fields e)) = 9%nat
  /\ exists time_part data_part fields,
       split1 (lit " - ") (clean_line line) = [time_part; data_part]
       /\ strptime (hd [] (split (lit ",") time_part)) = Some (timestamp e)
       /\ parse_fields data_part = Some fields
       /\ Forall (extracted data_part) fields
       /\ Forall2 (fun key value =>
                     value = Dict.get_default str_eqb (lit key) unknown fields
                     /\ (value = unknown \/ In (lit key, value) fields))
                  recognized_keys (string_fields e)
       /\ Forall2 (fun key value =>
                     let items := split (lit ", '") data_part in
                     ((forall item, In item items -> item_key item <> Some (lit key)) ->
                      value = unknown)
                     /\ (forall before item after v,
                           items = before ++ item :: after ->
                           item_kv item = Some (lit key, v) ->
                           (forall later, In later after ->
                                          item_key later <> Some (lit key)) ->
                           value = v)
                     /\ (((forall item, In item items -> item_key item <> Some (lit key))
                          /\ value = unknown)
                         \/ (exists before item after,
                               items = before ++ item :: after
                               /\ item_kv item = Some (lit key, value)
                               /\ forall later, In later after ->
                                                item_key later <> Some (lit key))))
                  recognized_keys (string_fields e).
Proof.
  intros U line e. unfold parse_log_entry.
  destruct (split1 (lit " - ") (clean_line line)) as [|tp [|dp [|? ?]]] eqn:Es;
    try discriminate.
  destruct (strptime (hd [] (split (lit ",") tp))) as [ts|] eqn:Et; [|discriminate].
  destruct (parse_fields dp) as [fields|] eqn:Ef; [|discriminate].
  intro H. injection H as <-. cbn [timestamp].
  split; [eapply strptime_valid; exact Et|]. split; [reflexivity|].
  split; [reflexivity|]. exists tp, dp, fields. split; [reflexivity|]. split; [exact Et|].
  split; [exact Ef|]. split; [now apply parse_fields_extracted|].
  unfold recognized_keys, string_fields.
  cbn [client_ip client_hostname server event project login org_unit fullname].
  split.
  - repeat (constructor; [split; [reflexivity | apply field_cases]|]). constructor.
  - repeat (constructor; [exact (field_of_chunks dp fields _ Ef)|]). constructor.
Qed.

Lemma parse_returns_full_record_witness :
  parse_log_entry (U:=sample_interpreter) example_line = Some example_entry
  /\ valid_datetime (timestamp example_entry) = true
  /\ exists data_part,
       data_part = lit "Client_IP:'10.0.0.7', 'ФИО:'Ivanov I.I.'"
       /\ Forall2 (fun key value =>
                     let items := split (lit ", '") data_part in
                     ((forall item, In item items -> item_key (U:=sample_interpreter) item <> Some (lit key)) ->
                      value = unknown)
                     /\ (forall before item after v,
                           items = before ++ item :: after ->
                           item_kv (U:=sample_interpreter) item = Some (lit key, v) ->
                           (forall later, In later after ->
                                          item_key (U:=sample_interpreter) later <> Some (lit key)) ->
                           value = v)
                     /\ (((forall item, In item items -> item_key (U:=sample_interpreter) item <> Some (lit key))
                          /\ value = unknown)
                         \/ (exists before item after,
                               items = before ++ item :: after
                               /\ item_kv (U:=sample_interpreter) item = Some (lit key, value)
                               /\ forall later, In later after ->
                                                item_key (U:=sample_interpreter) later <> Some (lit key))))
                  recognized_keys (string_fields example_entry).
Proof.
  pose proof (@parse_returns_full_record sample_interpreter example_line example_entry eq_refl)
    as [H1 [_ [_ [tp [dp [fields [Hs [_ [_ [_ [_ Hnew]]]]]]]]]]].
  split; [reflexivity|]. split; [exact H1|].
  exists dp. split; [|exact Hnew].
  vm_compute in Hs. injection Hs as _ Hdp. rewrite <- Hdp. vm_compute. reflexivity.
Defined.

Lemma fields_are_trimmed_witness :
  exists fields,
    parse_fields (U:=sample_interpreter) (lit "Client_IP:'10.0.0.7', 'Event: 'login' ")
    = Some fields
    /\ Forall (fun kv =>
                 clean_ends (fun c => existsb (N.eqb c) (lit " '")) (fst kv)
                 /\ clean_ends (fun c => existsb (N.eqb c) (lit "'")) (snd kv))
              fields.
Proof.
  eexists. split; [reflexivity|].
  exact (@fields_are_trimmed sample_interpreter
           (lit "Client_IP:'10.0.0.7', 'Event: 'login' ") _ eq_refl).
Defined.

Lemma field_lookup_witness :
  Dict.get str_eqb (lit "Event")
    [(lit "Event", lit "logout"); (lit "Client_IP", lit "10.0.0.7")]
  = Some (lit "logout").
Proof.
  pose proof (@field_lookup sample_interpreter
                (lit "Event:'login', 'Client_IP:'10.0.0.7', 'Event:'logout'")
                [(lit "Event", lit "logout"); (lit "Client_IP", lit "10.0.0.7")]
                (lit "Event")) as H.
  cbv zeta in H. specialize (H eq_refl). hnf in H.
  destruct H as [_ [_ H]].
  exact (H [lit "Event:'login'"; lit "Client_IP:'10.0.0.7'"] (lit "Event:'logout'") []
           (lit "logout") eq_refl eq_refl (fun later (Hl : In later []) => match Hl with end)).
Defined.

(* ================================================================== *)
(** * Further properties: addresses, labels and unit views              *)
(* ================================================================== *)

Section AddressFacts.
Context {U : Interpreter}.

Lemma octets_join : forall toks,
  toks <> [] -> Forall (fun t => ~ In 46%N t) toks ->
  octets (join (lit ".") toks) = firstn 4 (filter isdigit toks).
Proof.
  intros toks Hne Hfree. unfold octets. change (lit ".") with [46%N].
  now rewrite split_join.
Qed.

Lemma department_for_octets : forall ip1 ip2,
  octets ip1 = octets ip2 ->
  department_for get_departments ip1 = department_for get_departments ip2.
Proof.
  intros ip1 ip2 H. rewrite !department_for_spec. unfold spec_last_octet.
  now rewrite H.
Qed.

(** X15. Attribution reads an address by its dot-separated components:
    it keeps the first four numeric ones and nothing else. Components
    after the fourth numeric one never change the unit, and a
    non-numeric component, wherever it stands, never does. *)
Theorem address_components : forall (toks : list str),
  toks <> [] -> Forall (fun t => ~ In 46%N t) toks ->
  octets (join (lit ".") toks) = firstn 4 (filter isdigit toks)
  /\ (forall extra,
        Forall (fun t => ~ In 46%N t) extra ->
        (4 <= length (filter isdigit toks))%nat ->
        department_for get_departments (join (lit ".") (toks ++ extra))
        = department_for get_departments (join (lit ".") toks))
  /\ (forall before after t,
        toks = before ++ after -> isdigit t = false -> ~ In 46%N t ->
        department_for get_departments (join (lit ".") (before ++ t :: after))
        = department_for get_departments (join (lit ".") toks)).
Proof.
  intros toks Hne Hfree. split; [now apply octets_join|]. split.
  - intros extra Hextra Hlen. apply department_for_octets.
    rewrite !octets_join; try assumption.
    + rewrite filter_app, firstn_app.
      replace (4 - length (filter isdigit toks))%nat with 0%nat by lia.
      cbn [firstn]. apply app_nil_r.
    + destruct toks; [congruence | discriminate].
    + apply Forall_app. now split.
  - intros before after t Htoks Ht Hfree_t. apply department_for_octets.
    rewrite !octets_join; try assumption.
    + subst toks. rewrite !filter_app. cbn [filter]. now rewrite Ht.
    + destruct before; discriminate.
    + subst toks. apply Forall_app in Hfree as [Hb Ha].
      apply Forall_app. split; [exact Hb | now constructor].
Qed.

End AddressFacts.

Lemma address_components_witness :
  octets (U:=sample_interpreter) (join (lit ".") [lit "10"; lit "0"; lit "0"; lit "7"])
  = firstn 4 (filter (isdigit (U:=sample_interpreter)) [lit "10"; lit "0"; lit "0"; lit "7"]).
Proof.
  refine (proj1 (@address_components sample_interpreter
                   [lit "10"; lit "0"; lit "0"; lit "7"] _ _)).
  - discriminate.
  - repeat constructor; vm_compute;
      intro H; repeat (destruct H as [H|H]; [discriminate H|]); exact H.
Defined.

(** X16. In yearly grouping a record of the window gets the year-month
    label exactly when its year is the end year, and the bare year
    otherwise: being in the window, it cannot lie in a later month of
    the end year, nor in a later year. *)
Theorem yearly_labels_in_window :
  forall (parsed_logs : list alog) (start_date end_date : date) (l : alog),
  In l (filtered_logs parsed_logs start_date end_date) ->
  year (date_of l) <= year end_date
  /\ period_of Year end_date (date_of l)
     = if year (date_of l) =? year end_date
       then fstring_year_month (year (date_of l)) (month (date_of l))
       else strftime_Y (date_of l).
Proof.
  intros parsed s e l Hl. unfold filtered_logs in Hl.
  apply filter_In in Hl as [_ Hr]. apply andb_true_iff in Hr as [_ H2].
  unfold date_leb, date_ltb in H2. apply negb_true_iff in H2.
  unfold period_of. split.
  - bool_hyps; lia.
  - destruct (year (date_of l) =? year e) eqn:Ey; [|reflexivity].
    replace (month (date_of l) <=? month e) with true; [reflexivity|].
    symmetry. apply Z.leb_le. bool_hyps; lia.
Qed.

Lemma yearly_labels_in_window_witness :
  period_of Year (mkdate 2024 6 30) (mkdate 2024 5 15) = lit "2024-05".
Proof.
  exact (proj2 (yearly_labels_in_window [sample_log 2024 5 15 "10.0.0.7" "Ivanov I.I."]
                  (mkdate 2022 1 1) (mkdate 2024 6 30)
                  (sample_log 2024 5 15 "10.0.0.7" "Ivanov I.I.")
                  (or_introl eq_refl))).
Defined.

Lemma unit_indicator_sum : forall d L,
  NoDup L -> In d L ->
  sumZ (map (fun dept => if str_eqb d dept then 1 else 0) L) = 1.
Proof.
  intros d L. induction L as [|x L IH]; intros Hnd Hin; [destruct Hin|].
  inversion Hnd as [|? ? Hni Hnd']; subst. cbn [map sumZ fold_right].
  fold (sumZ (map (fun dept => if str_eqb d dept then 1 else 0) L)).
  destruct (str_eqb d x) eqn:E.
  - apply str_eqb_eq in E. subst x.
    assert (Hz : forall L', ~ In d L' ->
                sumZ (map (fun dept => if str_eqb d dept then 1 else 0) L') = 0).
    { induction L' as [|y L' IH']; intro Hn; [reflexivity|]. cbn [map sumZ fold_right].
      fold (sumZ (map (fun dept => if str_eqb d dept then 1 else 0) L')).
      destruct (str_eqb d y) eqn:Ey.
      - apply str_eqb_eq in Ey. subst. exfalso. apply Hn. now left.
      - rewrite IH'; [lia | intro H; apply Hn; now right]. }
    rewrite (Hz L Hni). lia.
  - destruct Hin as [->|Hin]; [rewrite str_eqb_refl in E; discriminate|].
    rewrite (IH Hnd' Hin). lia.
Qed.

(** X17. The detail views split the window: a record is in the view of a
    unit exactly when it is a filtered record of that unit, and, every
    record being attributed to one of the six units, the sizes of the
    six views add up to the number of filtered records. *)
Theorem unit_views_partition : forall filtered : list alog,
  Forall (fun l => In (department l) get_departments) filtered ->
  (forall dept l, In l (dept_logs filtered dept) <-> In l filtered /\ department l = dept)
  /\ sumZ (map (fun dept => Z.of_nat (length (dept_logs filtered dept))) get_departments)
     = Z.of_nat (length filtered).
Proof.
  intros filtered Hall. split.
  - intros dept l. unfold dept_logs. rewrite filter_In. split.
    + intros [Hl He]. split; [exact Hl | now apply str_eqb_eq].
    + intros [Hl <-]. split; [exact Hl | apply str_eqb_refl].
  - induction filtered as [|l filtered IH].
    + apply (sumZ_map_zero get_departments).
    + inversion Hall as [|? ? Hl Hrest]; subst.
      erewrite map_ext.
      2:{ intro dept. unfold dept_logs. cbn [filter].
          instantiate (1 := fun dept => (if str_eqb (department l) dept then 1 else 0)
                                        + Z.of_nat (length (dept_logs filtered dept))).
          cbv beta. unfold dept_logs.
          destruct (str_eqb (department l) dept); simpl length; lia. }
      rewrite sumZ_map_add, (IH Hrest).
      rewrite (unit_indicator_sum _ _ NoDup_departments Hl). simpl length. lia.
Qed.

Lemma unit_views_partition_witness :
  sumZ (map (fun dept => Z.of_nat (length
               (dept_logs [sample_log 2024 5 15 "10.0.0.7" "Ivanov I.I."] dept)))
            get_departments)
  = Z.of_nat (length [sample_log 2024 5 15 "10.0.0.7" "Ivanov I.I."]).
Proof.
  refine (proj2 (unit_views_partition [sample_log 2024 5 15 "10.0.0.7" "Ivanov I.I."] _)).
  apply Forall_cons; [|apply Forall_nil]. right. left. reflexivity.
Defined.
